(** * Sandboxed OpenSCAD compilation engine: shim, asset resolver,
      job coordinator and render endpoint.

    Shallow embedding of
      - the worker polyfill (ResponseMock, URL, fetch, instantiateStreaming),
      - [renderLocally] and the [/api/render] handler of [server/index.js].

    Asynchronous code is modelled by what it settles to; the event-driven
    coordinator by a state record and one transition per registered
    callback. *)

From Stdlib Require Import ZArith String Ascii List Bool Lia.
From Stdlib.Strings Require Import Byte.
From stdpp Require Import base option list strings gmap pretty.
From stdpp Require Import sorting.
Import ListNotations.

Local Open Scope string_scope.
Local Open Scope Z_scope.

Set Warnings "-register-all".

(** ** JavaScript values shared by all components *)

Module JS.

(** A thrown / rejected value: an [Error] object, identified by its
    [message]. *)
Record js_error := Error { message : string }.

(** What an [async] function or a [Promise] settles to.  [Forever] is a
    promise that stays pending. *)
Inductive promise (A : Type) :=
| Fulfilled (a : A)
| Rejected (e : js_error)
| Forever.
Arguments Fulfilled {A} a.
Arguments Rejected {A} e.
Arguments Forever {A}.

(** [await p; k]. *)
Definition await {A B} (p : promise A) (k : A -> promise B) : promise B :=
  match p with
  | Fulfilled a => k a
  | Rejected e => Rejected e
  | Forever => Forever
  end.

(** Synchronous code that may throw. *)
Inductive completion (A : Type) :=
| Normal (a : A)
| Throw (e : js_error).
Arguments Normal {A} a.
Arguments Throw {A} e.

(** *** Strings *)

Definition slash : ascii := "/"%char.

(** [s.replace(/\/$/, '')]: the pattern is anchored at the end of the
    input, so the only possible match is a final "/"; exactly that one
    character is removed. *)
Fixpoint replace_trailing_slash (s : string) : string :=
  match s with
  | EmptyString => EmptyString
  | String c s' =>
      match s' with
      | EmptyString => if Ascii.eqb c slash then EmptyString else s
      | String _ _ => String c (replace_trailing_slash s')
      end
  end.

(** [s.split(sep)] for a one-character separator; the result is never
    the empty array. *)
Fixpoint split (sep : ascii) (s : string) : list string :=
  match s with
  | EmptyString => [EmptyString]
  | String c s' =>
      if Ascii.eqb c sep then EmptyString :: split sep s'
      else match split sep s' with
           | seg :: rest => String c seg :: rest
           | [] => [String c EmptyString]
           end
  end.

(** [a.pop()] read as an expression: the last element, [undefined] on
    the empty array. *)
Definition pop (a : list string) : option string := last a.

(** [s.endsWith(suffix)]. *)
Definition endsWith (s suffix : string) : bool :=
  let n := String.length s in
  let m := String.length suffix in
  if (m <=? n)%nat then String.eqb (substring (n - m) m s) suffix else false.

(** *** Numbers and parseInt(s, 10)

    A JavaScript string is represented by the bytes of its UTF-8 encoding
    (as the text of an environment variable, a url or a message reaches
    the process): the no-break space U+00A0 is the two bytes C2 A0.  Bytes
    that are not UTF-8, such as a single A0, reach JavaScript as U+FFFD,
    which is not white space.

    [parseInt] (ECMAScript, as V8 implements it for radix 10): skip leading
    white space, read an optional sign, then the longest prefix of decimal
    digits; no digit gives NaN, otherwise the result is the double nearest
    to the integer read. *)

(** The numbers [parseInt] can return: NaN, a double that is an integer
    ([Num 0] is +0), the negative zero, or an infinity. *)
Inductive js_number :=
| NaN
| Num (z : Z)
| NegZero
| Infinity (negative : bool).

(** The double nearest to the integer [m >= 0], ties to the even
    significand; from the middle between the largest double and 2^1024 on
    the result is infinite. *)
Definition to_double (m : Z) : js_number :=
  if m <? 2 ^ 53 then Num m
  else
    let e := Z.log2 m - 52 in
    let q := Z.shiftr m e in
    let r := m - Z.shiftl q e in
    let half := Z.shiftl 1 (e - 1) in
    let q' := if (half <? r) || ((r =? half) && Z.odd q) then q + 1 else q in
    let v := Z.shiftl q' e in
    if 2 ^ 1024 <=? v then Infinity false else Num v.

(** Unary minus. *)
Definition negate (x : js_number) : js_number :=
  match x with
  | NaN => NaN
  | Num 0 => NegZero
  | Num v => Num (- v)
  | NegZero => Num 0
  | Infinity negative => Infinity (negb negative)
  end.

(** The white space of one byte: TAB, LF, VT, FF, CR and SP. *)
Definition is_white_space (c : ascii) : bool :=
  match N_of_ascii c with
  | 9%N | 10%N | 11%N | 12%N | 13%N | 32%N => true
  | _ => false
  end.

Definition byte_is (c : ascii) (n : N) : bool := N.eqb (N_of_ascii c) n.

(** U+00A0 (no-break space) is C2 A0. *)
Definition white_space_2 (c0 c1 : ascii) : bool :=
  byte_is c0 194 && byte_is c1 160.

(** The white space of three bytes: U+1680 (E1 9A 80), U+2000 to U+200A
    (E2 80 80 to E2 80 8A), the line and paragraph separators U+2028 and
    U+2029 (E2 80 A8, E2 80 A9), U+202F (E2 80 AF), U+205F (E2 81 9F),
    U+3000 (E3 80 80) and U+FEFF (EF BB BF). *)
Definition white_space_3 (c0 c1 c2 : ascii) : bool :=
  (byte_is c0 225 && (byte_is c1 154 && byte_is c2 128))
  || (byte_is c0 226
      && ((byte_is c1 128
           && ((N.leb 128 (N_of_ascii c2) && N.leb (N_of_ascii c2) 138)
               || byte_is c2 168 || byte_is c2 169 || byte_is c2 175))
          || (byte_is c1 129 && byte_is c2 159)))
  || (byte_is c0 227 && (byte_is c1 128 && byte_is c2 128))
  || (byte_is c0 239 && (byte_is c1 187 && byte_is c2 191)).

(** Skipping the leading [StrWhiteSpaceChar]s. *)
Fixpoint trim_start (s : string) : string :=
  match s with
  | EmptyString => EmptyString
  | String c0 s1 =>
      if is_white_space c0 then trim_start s1
      else
        match s1 with
        | EmptyString => s
        | String c1 s2 =>
            if white_space_2 c0 c1 then trim_start s2
            else
              match s2 with
              | EmptyString => s
              | String c2 s3 =>
                  if white_space_3 c0 c1 c2 then trim_start s3 else s
              end
        end
  end.

Definition digit_of (c : ascii) : option Z :=
  let n := Z.of_N (N_of_ascii c) in
  if (48 <=? n) && (n <=? 57) then Some (n - 48) else None.

(** The integer written by the leading digits; [None] when there is
    none. *)
Fixpoint parse_digits (s : string) (acc : option Z) : option Z :=
  match s with
  | EmptyString => acc
  | String c s' =>
      match digit_of c with
      | Some d => parse_digits s' (Some (10 * default 0 acc + d))
      | None => acc
      end
  end.

(** The value of [parseInt] from its sign and the integer read. *)
Definition number_of (negative : bool) (mathInt : option Z) : js_number :=
  match mathInt with
  | Some m => if negative then negate (to_double m) else to_double m
  | None => NaN
  end.

Definition parseInt10 (s : string) : js_number :=
  match trim_start s with
  | String "-" s' => number_of true (parse_digits s' None)
  | String "+" s' => number_of false (parse_digits s' None)
  | s' => number_of false (parse_digits s' None)
  end.

(** *** Buffers

    A Node [Buffer] is a view on an [ArrayBuffer]: small buffers share a
    pool, so the view need not start at offset 0. *)

Record Buffer := {
  buffer : list byte;
  byteOffset : nat;
  byteLength : nat
}.

(** The bytes a [Buffer] denotes. *)
Definition Buffer_bytes (b : Buffer) : list byte :=
  take (byteLength b) (drop (byteOffset b) (buffer b)).

(** [Buffer.from(bytes)], [Buffer.from('')], [Buffer.from([])]: a buffer
    holding a copy of the bytes. *)
Definition Buffer_from (bs : list byte) : Buffer :=
  {| buffer := bs; byteOffset := 0; byteLength := length bs |}.

(** [ab.slice(begin, end)] on an [ArrayBuffer], both indices clamped to
    the length. *)
Definition ArrayBuffer_slice (ab : list byte) (begin_ end_ : nat) : list byte :=
  let n := length ab in
  let first := Nat.min begin_ n in
  let final := Nat.min end_ n in
  take (final - first) (drop first ab).

(** *** base64 ([buf.toString('base64')], RFC 4648 with padding) *)

Definition base64_alphabet : string :=
  "ABCDEFGHIJKLMNOPQRSTUVWXYZabcdefghijklmnopqrstuvwxyz0123456789+/".

Definition base64_char (n : N) : ascii :=
  default "="%char (String.get (N.to_nat n) base64_alphabet).

Definition sextet (n : N) (k : N) : ascii :=
  base64_char (N.land (N.shiftr n (6 * k)) 63).

Fixpoint base64 (bs : list byte) : string :=
  match bs with
  | [] => EmptyString
  | [a] =>
      let n := N.shiftl (Byte.to_N a) 16 in
      String (sextet n 3) (String (sextet n 2) "==")
  | [a; b] =>
      let n := N.lor (N.shiftl (Byte.to_N a) 16) (N.shiftl (Byte.to_N b) 8) in
      String (sextet n 3) (String (sextet n 2) (String (sextet n 1) "="))
  | a :: b :: c :: rest =>
      let n := N.lor (N.lor (N.shiftl (Byte.to_N a) 16)
                            (N.shiftl (Byte.to_N b) 8)) (Byte.to_N c) in
      String (sextet n 3) (String (sextet n 2)
        (String (sextet n 1) (String (sextet n 0) (base64 rest))))
  end.

(** *** JSON values (request and response bodies) *)

Inductive json :=
| JNull
| JBool (b : bool)
| JNumber (z : Z)
| JString (s : string)
| JArray (l : list json)
| JObject (l : list (string * json)).

(** JavaScript truthiness of a parsed JSON value; [None] is [undefined].
    Only whether a number is zero matters here, so numbers are integers. *)
Definition truthy (v : option json) : bool :=
  match v with
  | None | Some JNull | Some (JBool false) => false
  | Some (JNumber z) => negb (z =? 0)
  | Some (JString s) => negb (String.eqb s EmptyString)
  | Some _ => true
  end.

End JS.

(** ** The Node runtime pieces the code calls: [path], [fs], [process.env] *)

Module Node.
Import JS.

(** A normalised absolute path, as its segments. *)
Abbreviation path := (list string).

(** [path.join(base, ...segs)] on segments that contain no separator:
    empty and "." segments are dropped, ".." removes the last segment. *)
Definition join_segment (p : path) (seg : string) : path :=
  if String.eqb seg EmptyString || String.eqb seg "." then p
  else if String.eqb seg ".." then removelast p
  else p ++ [seg].

Definition path_join (base : path) (segs : list string) : path :=
  fold_left join_segment segs base.

(** The path as text, for messages. *)
Definition path_to_string (p : path) : string :=
  fold_left (fun acc seg => acc +:+ "/" +:+ seg) p EmptyString.

Inductive fs_entry :=
| File (content : list byte)
| Directory
| Unreadable (e : js_error).

Definition EISDIR : js_error :=
  Error "EISDIR: illegal operation on a directory, read".
Definition ENOENT : js_error :=
  Error "ENOENT: no such file or directory".

(** [fs.existsSync(p)]: true for anything present; it never throws. *)
Definition existsSync (fs : gmap path fs_entry) (p : path) : bool :=
  match fs !! p with
  | Some _ => true
  | None => false
  end.

(** [fs.readFileSync(p)]: the content in a fresh [Buffer], or an
    exception. *)
Definition readFileSync (fs : gmap path fs_entry) (p : path) : completion Buffer :=
  match fs !! p with
  | Some (File content) => Normal (Buffer_from content)
  | Some Directory => Throw EISDIR
  | Some (Unreadable e) => Throw e
  | None => Throw ENOENT
  end.

(** [process.env.NAME || fallback]: the fallback is taken when the
    variable is unset and when it is the empty string. *)
Definition env_or (env : gmap string string) (name fallback : string) : string :=
  match env !! name with
  | Some v => if String.eqb v EmptyString then fallback else v
  | None => fallback
  end.

End Node.

(** ** Host environment shim and asset resolver (the worker polyfill) *)

Module Shim.
Import JS Node.

(** The body handed to [new ResponseMock(body)]: a [Buffer], or something
    else that is passed through untouched (an [ArrayBuffer]). *)
Inductive body_init :=
| BufferBody (b : Buffer)
| RawBody (ab : list byte).

Record ResponseMock := {
  body : body_init;
  ok : bool;
  status : Z;
  headers : gmap string string
}.

(** [constructor(body)]. *)
Definition new_ResponseMock (b : body_init) : ResponseMock :=
  {| body := b; ok := true; status := 200; headers := ∅ |}.

(** [async arrayBuffer()]. *)
Definition arrayBuffer (r : ResponseMock) : promise (list byte) :=
  match body r with
  | BufferBody b =>
      Fulfilled (ArrayBuffer_slice (buffer b) (byteOffset b)
                                   (byteOffset b + byteLength b))
  | RawBody ab => Fulfilled ab
  end.

(** [async text()]; [decode] is the runtime's UTF-8 decoder behind
    [Buffer.prototype.toString]. *)
Definition text (decode : list byte -> string) (r : ResponseMock) : promise string :=
  match body r with
  | BufferBody b => Fulfilled (decode (Buffer_bytes b))
  | RawBody _ => Fulfilled "[object ArrayBuffer]"
  end.

Inductive blob_result :=
| NewBlob (parts : list body_init)
| BodyItself (b : body_init).

(** [async blob()]; [Blob_defined] is [typeof Blob !== 'undefined']. *)
Definition blob (Blob_defined : bool) (r : ResponseMock) : promise blob_result :=
  if Blob_defined then Fulfilled (NewBlob [body r])
  else Fulfilled (BodyItself (body r)).

(** [clone()]. *)
Definition clone (r : ResponseMock) : ResponseMock :=
  new_ResponseMock (body r).

(** The replacement [URL] class. *)
Record URL := {
  href : string;
  pathname : string;
  search : string;
  hash : string;
  hostname : string;
  port : string;
  protocol : string
}.

(** [new URL(url, base)] for a string [url]. *)
Definition new_URL (url : string) : URL :=
  {| href := url; pathname := url; search := EmptyString; hash := EmptyString;
     hostname := EmptyString; port := EmptyString; protocol := EmptyString |}.

(** What the kernel passes to [fetch]: a string or a [URL] object. *)
Inductive fetch_input :=
| UrlString (s : string)
| UrlObject (u : URL).

(** [String(url)]; for a [URL] object this is its [toString()]. *)
Definition String_of (url : fetch_input) : string :=
  match url with
  | UrlString s => s
  | UrlObject u => href u
  end.

(** [String(url).replace(/\/$/, '').split('/').pop()]. *)
Definition resourceName (url : fetch_input) : option string :=
  pop (split slash (replace_trailing_slash (String_of url))).

(** The three candidate locations, in probing order. *)
Definition distPaths (dirname : path) (name : string) : list path :=
  [ path_join dirname [".."; "node_modules"; "openscad-playground"; "dist"; name];
    path_join dirname [".."; "node_modules"; "openscad-playground"; "dist"; "wasm"; name];
    path_join dirname [".."; "node_modules"; "browserfs"; "dist"; name] ].

(** The [for ... of distPaths] loop: the first path that exists is read
    and the loop stops; [None] is [data] left [null]. *)
Fixpoint probe (fs : gmap path fs_entry) (paths : list path) : completion (option Buffer) :=
  match paths with
  | [] => Normal None
  | filePath :: rest =>
      if existsSync fs filePath then
        match readFileSync fs filePath with
        | Normal data => Normal (Some data)
        | Throw e => Throw e
        end
      else probe fs rest
  end.

Definition TypeError_path : js_error :=
  Error "The path argument must be of type string. Received undefined".

(** The [try] block of [fetch]. *)
Definition fetch_try (dirname : path) (fs : gmap path fs_entry) (url : fetch_input)
  : completion ResponseMock :=
  match resourceName url with
  | None => Throw TypeError_path
  | Some name =>
      match probe fs (distPaths dirname name) with
      | Throw e => Throw e
      | Normal (Some data) => Normal (new_ResponseMock (BufferBody data))
      | Normal None =>
          if endsWith name ".wasm"
          then Normal (new_ResponseMock (BufferBody (Buffer_from [])))
          else Normal (new_ResponseMock (BufferBody (Buffer_from [])))
      end
  end.

(** [global.fetch]: the settled promise and the lines written with
    [console.error]. *)
Definition fetch (dirname : path) (fs : gmap path fs_entry) (url : fetch_input)
  : promise ResponseMock * list string :=
  match fetch_try dirname fs url with
  | Normal r => (Fulfilled r, [])
  | Throw err =>
      (Fulfilled (new_ResponseMock (BufferBody (Buffer_from []))),
       ["[openscad-worker] Fetch error for " +:+ String_of url +:+ ": " +:+ message err])
  end.

(** The bytes carried by a response produced by [fetch]. *)
Definition body_bytes (r : ResponseMock) : list byte :=
  match body r with
  | BufferBody b => Buffer_bytes b
  | RawBody ab => ab
  end.

(** An argument that is either a value or a promise of one. *)
Inductive maybe_promise (A : Type) :=
| Plain (a : A)
| Promised (p : promise A).
Arguments Plain {A} a.
Arguments Promised {A} p.

(** [Promise.resolve(x)]. *)
Definition Promise_resolve {A} (x : maybe_promise A) : promise A :=
  match x with
  | Plain a => Fulfilled a
  | Promised p => p
  end.

Section Instantiate.

(** The engine's buffer-based [WebAssembly.instantiate]. *)
Variables imports_t instance_t : Type.
Variable WebAssembly_instantiate : list byte -> imports_t -> promise instance_t.

Definition log_instantiate (err : js_error) : string :=
  "[openscad-worker] instantiateStreaming error: " +:+ message err.

(** The replacement [WebAssembly.instantiateStreaming]: the settled promise
    and the [console.error] lines.  The final [return] is not awaited, so a
    rejection of the buffer-based call is passed on without logging. *)
Definition instantiateStreaming (responsePromise : maybe_promise ResponseMock)
    (imports : imports_t) : promise instance_t * list string :=
  match Promise_resolve responsePromise with
  | Fulfilled response =>
      match arrayBuffer response with
      | Fulfilled buffer => (WebAssembly_instantiate buffer imports, [])
      | Rejected err => (Rejected err, [log_instantiate err])
      | Forever => (Forever, [])
      end
  | Rejected err => (Rejected err, [log_instantiate err])
  | Forever => (Forever, [])
  end.

(** The behaviour the design asks for, in its own words: resolve the
    response to its complete bytes, then instantiate from that buffer. *)
Definition instantiate_from_complete_buffer (responsePromise : maybe_promise ResponseMock)
    (imports : imports_t) : promise instance_t :=
  await (Promise_resolve responsePromise)
        (fun response => WebAssembly_instantiate (body_bytes response) imports).

End Instantiate.

End Shim.

(** ** Job coordinator: [renderLocally] *)

Module Coordinator.
Import JS Node.

(** [msg.result]: an object whose [outputs], when present, is an array of
    [path, Uint8Array] pairs. *)
Record result_payload := { outputs : option (list (string * list byte)) }.

(** A value received from the worker: an object with optional [result]
    and [error] fields, or something falsy ([null], [undefined]). *)
Inductive worker_message :=
| MsgFalsy
| MsgObject (result : option result_payload) (error : option string).

(** The object posted to the worker. *)
Record job_request := {
  inputs : list (string * json);
  args : list string;
  outputPaths : list string
}.

(** The promise returned by [renderLocally]. *)
Inductive promise_state :=
| Pending
| Resolved (stl : string)
| Failed (e : js_error).

(** The deadline timer, with the number handed to [setTimeout] as its
    delay. *)
Inductive timer_state :=
| NoTimer
| Armed (delay : js_number)
| Cleared
| Fired.

Record job := {
  settled : promise_state;
  timer : timer_state;
  terminate_calls : nat;
  spawned : nat;
  posted : list job_request
}.

(** A callback body acts on the job. *)
Definition action := job -> job.

Definition seq (a b : action) : action := fun st => b (a st).
Notation "a ;> b" := (seq a b) (at level 62, right associativity).
Definition skip : action := fun st => st.

(** [resolve(v)] and [reject(e)] of the promise executor: only the first
    call on a promise has an effect. *)
Definition resolve (v : string) : action := fun st =>
  match settled st with
  | Pending =>
      {| settled := Resolved v; timer := timer st;
         terminate_calls := terminate_calls st;
         spawned := spawned st; posted := posted st |}
  | _ => st
  end.

Definition reject (e : js_error) : action := fun st =>
  match settled st with
  | Pending =>
      {| settled := Failed e; timer := timer st;
         terminate_calls := terminate_calls st;
         spawned := spawned st; posted := posted st |}
  | _ => st
  end.

(** [clearTimeout(timeout)]: disarms a timer that has not fired. *)
Definition clearTimeout : action := fun st =>
  match timer st with
  | Armed _ =>
      {| settled := settled st; timer := Cleared;
         terminate_calls := terminate_calls st;
         spawned := spawned st; posted := posted st |}
  | _ => st
  end.

(** [w.terminate()]. *)
Definition terminate : action := fun st =>
  {| settled := settled st; timer := timer st;
     terminate_calls := S (terminate_calls st);
     spawned := spawned st; posted := posted st |}.

Definition timed_out : js_error := Error "OpenSCAD WASM worker timed out".
Definition no_output : js_error := Error "No output produced by OpenSCAD WASM worker".
Definition exited_with (code : Z) : js_error :=
  Error ("OpenSCAD worker exited with code " +:+ pretty code).
Definition wrapper_not_found (workerPath : path) : js_error :=
  Error ("openscad-worker-wrapper not found at " +:+ path_to_string workerPath).

(** The callback given to [setTimeout]. *)
Definition on_timeout : action :=
  terminate ;> reject timed_out.

(** [w.on('message', ...)].  A [result] object is always truthy; an
    [error] string is truthy unless it is empty. *)
Definition on_message (msg : worker_message) : action :=
  match msg with
  | MsgObject (Some result) _ =>
      clearTimeout ;>
      match outputs result with
      | Some ((_, out) :: _) =>
          let buf := Buffer_from out in
          terminate ;> resolve (base64 (Buffer_bytes buf))
      | _ => terminate ;> reject no_output
      end
  | MsgObject None (Some err) =>
      if String.eqb err EmptyString then skip
      else clearTimeout ;> terminate ;> reject (Error err)
  | _ => skip
  end.

(** [w.on('error', ...)]. *)
Definition on_error (err : js_error) : action :=
  reject err.

(** [w.on('exit', ...)]. *)
Definition on_exit (code : Z) : action :=
  if code =? 0 then skip else reject (exited_with code).

(** What the event loop can deliver to a job. *)
Inductive event :=
| EvMessage (msg : worker_message)
| EvTimeout
| EvError (err : js_error)
| EvExit (code : Z).

(** One delivery.  The timer callback runs only for a timer that is still
    armed, and the timer is then spent. *)
Definition step (st : job) (ev : event) : job :=
  match ev with
  | EvMessage msg => on_message msg st
  | EvTimeout =>
      match timer st with
      | Armed _ =>
          on_timeout {| settled := settled st; timer := Fired;
                        terminate_calls := terminate_calls st;
                        spawned := spawned st; posted := posted st |}
      | _ => st
      end
  | EvError err => on_error err st
  | EvExit code => on_exit code st
  end.

Definition run (st : job) (evs : list event) : job :=
  fold_left step evs st.

(** Where the coordinator runs. *)
Record host := {
  dirname : path;
  fs : gmap path fs_entry;
  env : gmap string string;
  Worker_throws : option js_error
}.

(** The delay expression
    [parseInt(process.env.OPENSCAD_WASM_TIMEOUT || '120000', 10)]. *)
Definition timeout_delay (env : gmap string string) : js_number :=
  parseInt10 (env_or env "OPENSCAD_WASM_TIMEOUT" "120000").

Definition the_request (scadCode : json) : job_request :=
  {| inputs := [("input.scad", scadCode)];
     args := ["-o"; "output.stl"; "input.scad"];
     outputPaths := ["output.stl"] |}.

Definition not_started (e : js_error) : job :=
  {| settled := Failed e; timer := NoTimer; terminate_calls := 0;
     spawned := 0; posted := [] |}.

(** The promise executor of [renderLocally]: the job as it stands when the
    call returns. *)
Definition renderLocally (h : host) (scadCode : json) : job :=
  let workerPath := path_join (dirname h) ["openscad-worker-wrapper.cjs"] in
  if negb (existsSync (fs h) workerPath) then not_started (wrapper_not_found workerPath)
  else
    match Worker_throws h with
    | Some e => not_started e
    | None =>
        {| settled := Pending;
           timer := Armed (timeout_delay (env h));
           terminate_calls := 0;
           spawned := 1;
           posted := [the_request scadCode] |}
    end.

End Coordinator.

(** ** The [/api/render] endpoint *)

Module Api.
Import JS Node Coordinator.

Record http_response := {
  status_code : Z;
  sent : list (string * json)
}.

(** One handled request: the response (if the handler got that far), the
    job behind the [renderLocally] call (if any) and what was written with
    [console.error]. *)
Record handled := {
  response : option http_response;
  render_job : option job;
  console_error : list js_error
}.

Definition bad_request : handled :=
  {| response := Some {| status_code := 400;
                         sent := [("error", JString "SCAD code is required")] |};
     render_job := None;
     console_error := [] |}.

(** The handler, for a request whose parsed body is [body] and whose
    worker, if one is started, delivers [evs]. *)
Definition api_render (h : host) (body : gmap string json) (evs : list event) : handled :=
  let scadCode := body !! "scadCode" in
  match scadCode with
  | Some code =>
      if negb (truthy scadCode) then bad_request
      else
        let j := run (renderLocally h code) evs in
        match settled j with
        | Resolved stlBase64 =>
            {| response := Some {| status_code := 200;
                                   sent := [("stlData", JString stlBase64);
                                            ("scadCode", code)] |};
               render_job := Some j;
               console_error := [] |}
        | Failed error =>
            {| response := Some {| status_code := 500;
                                   sent := [("error",
                                     JString "Internal server error during rendering")] |};
               render_job := Some j;
               console_error := [error] |}
        | Pending =>
            {| response := None; render_job := Some j; console_error := [] |}
        end
  | None => bad_request
  end.

(** Workers created while handling the request. *)
Definition spawn_count (r : handled) : nat :=
  match render_job r with
  | Some j => spawned j
  | None => 0%nat
  end.

End Api.

(** ** Sample data and the statements under test *)

Module Sample.
Import JS Node Shim Coordinator Api.

Definition server_dir : path := ["srv"; "cad"; "server"].

Definition wasm_magic : list byte := [x00; x61; x73; x6d].

(** An installation: the wrapper next to the server, the kernel bundle
    under the sibling [node_modules]. *)
Definition installed : gmap path fs_entry :=
  list_to_map
    [ (["srv"; "cad"; "server"], Directory);
      (["srv"; "cad"; "server"; "openscad-worker-wrapper.cjs"], File []);
      (["srv"; "cad"; "node_modules"; "openscad-playground"; "dist"], Directory);
      (["srv"; "cad"; "node_modules"; "openscad-playground"; "dist"; "wasm"], Directory);
      (["srv"; "cad"; "node_modules"; "openscad-playground"; "dist"; "openscad.wasm"],
       File wasm_magic);
      (["srv"; "cad"; "node_modules"; "browserfs"; "dist"], Directory);
      (["srv"; "cad"; "node_modules"; "browserfs"; "dist"; "browserfs.min.js"],
       File ["/"%byte; "/"%byte]) ].

Definition server : host :=
  {| dirname := server_dir; fs := installed; env := ∅; Worker_throws := None |}.

Definition cube : json := JString "cube([10,10,10]);".

Definition stl_message : worker_message :=
  MsgObject (Some {| outputs := Some [("output.stl", [x73; x6f; x6c])] |}) None.

Definition empty_error_message : worker_message :=
  MsgObject None (Some EmptyString).

Definition parse_error_message : worker_message :=
  MsgObject None (Some "Parser error in line 1").

End Sample.

(** ** The statements as the design document words them *)

Module Stated.
Import JS Node Shim Coordinator Api.

(** The worker could be started. *)
Definition starts (h : host) : Prop :=
  existsSync (fs h) (path_join (dirname h) ["openscad-worker-wrapper.cjs"]) = true
  /\ Worker_throws h = None.

(** The test [on_message] applies: a [result] object, or a non-empty
    [error] string. *)
Definition acts_on (msg : worker_message) : bool :=
  match msg with
  | MsgObject (Some _) _ => true
  | MsgObject None (Some err) => negb (String.eqb err EmptyString)
  | _ => false
  end.

(** "Terminal-shaped": the message contains a [result] or an [error]
    field. *)
Definition terminal_shaped (msg : worker_message) : bool :=
  match msg with
  | MsgObject (Some _) _ | MsgObject None (Some _) => true
  | _ => false
  end.

(** The five exit paths of a job. *)
Definition exit_path (ev : event) : bool :=
  match ev with
  | EvMessage msg => acts_on msg
  | EvTimeout => true
  | EvError _ => true
  | EvExit code => negb (code =? 0)
  end.

(** The exit paths on which the coordinator itself cleans up. *)
Definition cleaning_path (ev : event) : bool :=
  match ev with
  | EvMessage msg => acts_on msg
  | EvTimeout => true
  | _ => false
  end.

(** The coordinator has cleaned up by itself: it has called
    [w.terminate()] and the deadline timer is no longer armed. *)
Definition released (st : job) : Prop :=
  (0 < terminate_calls st)%nat /\ forall d, timer st <> Armed d.

(** "Strip trailing separators": every trailing "/" is removed. *)
Fixpoint strip_trailing_separators (s : string) : string :=
  match s with
  | EmptyString => EmptyString
  | String c s' =>
      match strip_trailing_separators s' with
      | EmptyString => if Ascii.eqb c slash then EmptyString else String c EmptyString
      | rest => String c rest
      end
  end.

(** "The final path segment" of the normalised request. *)
Definition logical_name (url : fetch_input) : option string :=
  pop (split slash (strip_trailing_separators (String_of url))).

(** Segments put back together with "/" between them. *)
Fixpoint join_slash (segs : list string) : string :=
  match segs with
  | [] => EmptyString
  | [seg] => seg
  | seg :: rest => seg +:+ String slash (join_slash rest)
  end.

Fixpoint contains_slash (s : string) : bool :=
  match s with
  | EmptyString => false
  | String c s' => Ascii.eqb c slash || contains_slash s'
  end.

(** The first of the paths that exists, if any. *)
Definition first_existing (fs : gmap path fs_entry) (paths : list path) : option path :=
  List.find (existsSync fs) paths.

(** What holds of a started job at every moment: the timer exists, and
    once it is cleared or spent the worker has been told to stop and the
    promise is settled. *)
Definition coherent (st : job) : Prop :=
  match timer st with
  | Armed _ => True
  | Cleared | Fired => settled st <> Pending /\ (0 < terminate_calls st)%nat
  | NoTimer => False
  end.

(** The generic text of the server-error response. *)
Definition server_error : http_response :=
  {| status_code := 500;
     sent := [("error", JString "Internal server error during rendering")] |}.

End Stated.

(** ** The worker thread behind a job *)

Module Lifecycle.
Import JS Node Coordinator.

(** The worker thread of a job, as Node's [worker_threads] documents it:
    it runs from [new Worker] on; [w.terminate()] stops it; when its
    ['exit'] event is delivered it has stopped; and its ['error'] event is
    emitted for an uncaught exception in the thread, in which case the
    runtime terminates it. *)
Inductive worker_life :=
| NotCreated
| Running
| Ended.

(** A job together with its worker thread. *)
Record running_job := {
  the_job : job;
  the_worker : worker_life
}.

(** The call of [renderLocally]. *)
Definition launch (h : host) (scadCode : json) : running_job :=
  let j := renderLocally h scadCode in
  {| the_job := j;
     the_worker := if (0 <? spawned j)%nat then Running else NotCreated |}.

(** One delivery: the callback runs on the job; a running worker ends
    when the callback has called [terminate], or when the event is its own
    ['error'] or ['exit']. *)
Definition deliver (r : running_job) (ev : event) : running_job :=
  let j := step (the_job r) ev in
  {| the_job := j;
     the_worker :=
       match the_worker r with
       | Running =>
           match ev with
           | EvError _ | EvExit _ => Ended
           | _ =>
               if (terminate_calls (the_job r) <? terminate_calls j)%nat
               then Ended else Running
           end
       | w => w
       end |}.

Definition deliver_all (r : running_job) (evs : list event) : running_job :=
  fold_left deliver evs r.

(** What holds of a started job and its worker at every moment: the job
    is coherent, the worker exists, and while it runs the deadline timer
    is armed. *)
Definition watched (r : running_job) : Prop :=
  Stated.coherent (the_job r)
  /\ the_worker r <> NotCreated
  /\ (the_worker r = Running -> exists d, timer (the_job r) = Armed d).

End Lifecycle.

(** ** The worker scope and the [URL] constructor of the polyfill *)

Module WorkerScope.
Import JS Shim.

(** A registered callback, known by its identity. *)
Abbreviation handler := nat.

(** The object handed to a listener: [{ data: message }]. *)
Record message_event (A : Type) := { data : A }.
Arguments data {A} _.

(** [eventListeners] is a plain object, so the names every object inherits
    are found on it although nothing was registered under them. *)
Definition Object_prototype_names : list string :=
  ["constructor"; "__defineGetter__"; "__defineSetter__"; "hasOwnProperty";
   "__lookupGetter__"; "__lookupSetter__"; "isPrototypeOf";
   "propertyIsEnumerable"; "toString"; "valueOf"; "__proto__";
   "toLocaleString"].

Definition inherited (event : string) : bool :=
  existsb (String.eqb event) Object_prototype_names.

Definition push_is_not_a_function : js_error :=
  Error "eventListeners[event].push is not a function".
Definition filter_is_not_a_function : js_error :=
  Error "eventListeners[event].filter is not a function".

(** [self.addEventListener(event, handler)]. *)
Definition addEventListener (event : string) (h : handler)
    (eventListeners : gmap string (list handler))
  : completion (gmap string (list handler)) :=
  match eventListeners !! event with
  | Some hs => Normal (<[event := (hs ++ [h])%list]> eventListeners)
  | None =>
      if inherited event then Throw push_is_not_a_function
      else Normal (<[event := [h]]> eventListeners)
  end.

(** [self.removeEventListener(event, handler)]. *)
Definition removeEventListener (event : string) (h : handler)
    (eventListeners : gmap string (list handler))
  : completion (gmap string (list handler)) :=
  match eventListeners !! event with
  | Some hs =>
      Normal (<[event := filter (fun h' => h' <> h) hs]> eventListeners)
  | None =>
      if inherited event then Throw filter_is_not_a_function
      else Normal eventListeners
  end.

(** [hs.forEach(handler => handler(ev))]: the calls made, in order, and how
    the loop ends.  [throws] tells which calls raise; nothing catches them,
    so the first one ends the loop.  The loop runs over the array as it was
    when the message arrived: a listener removed meanwhile leaves that array
    alone ([filter] builds a new one) and one appended meanwhile lies beyond
    the range [forEach] visits. *)
Fixpoint forEach {A} (throws : handler -> message_event A -> option js_error)
    (hs : list handler) (ev : message_event A)
  : list (handler * message_event A) * completion unit :=
  match hs with
  | [] => ([], Normal tt)
  | h :: rest =>
      match throws h ev with
      | Some e => ([(h, ev)], Throw e)
      | None =>
          let '(calls, how) := forEach throws rest ev in
          ((h, ev) :: calls, how)
      end
  end.

(** The callback of [parentPort.on('message', ...)]. *)
Definition on_parent_message {A} (throws : handler -> message_event A -> option js_error)
    (eventListeners : gmap string (list handler)) (message : A)
  : list (handler * message_event A) * completion unit :=
  match eventListeners !! "message" with
  | Some hs => forEach throws hs {| data := message |}
  | None => ([], Normal tt)
  end.

(** [self.postMessage(message)]: handed to the parent port when there is
    one. *)
Definition postMessage {A} (parentPort : bool) (message : A) (sent : list A) : list A :=
  if parentPort then (sent ++ [message])%list else sent.

Definition Invalid_URL : js_error := Error "Invalid URL".

(** [new URL(url, base)] for any argument; [None] is [undefined]. *)
Definition construct_URL (url base : option json) : completion URL :=
  match url with
  | Some (JString s) => Normal (new_URL s)
  | _ => Throw Invalid_URL
  end.

End WorkerScope.

(** ** Sessions kept as files *)

Module Sessions.
Import JS Node.

Record chat_message := {
  role : string;
  content : string;
  scadCode : option string;
  fileName : option string
}.

Record session := {
  sess_id : string;
  createdAt : string;
  updatedAt : string;
  messages : list chat_message
}.

(** One line of the session list. *)
Record listed := {
  listed_id : string;
  listed_createdAt : string;
  listed_updatedAt : string;
  messageCount : nat
}.

(** What a path holds in the stores considered here: a session file (a
    file written with [JSON.stringify(session)], identified with the
    session [JSON.parse] reads back from it), a file whose text
    [JSON.parse] rejects with the given error, or a directory.  A file of
    JSON text of another shape ([null], an object without the fields of a
    session) is not among them. *)
Inductive node :=
| SessionFile (s : session)
| OtherFile (why : js_error)
| Folder.

Definition ENOTDIR : js_error := Error "ENOTDIR: not a directory".
Definition EPERM : js_error := Error "EPERM: operation not permitted, unlink".

Definition fs_exists (st : gmap path node) (p : path) : bool :=
  match st !! p with
  | Some _ => true
  | None => false
  end.

(** [JSON.parse(fs.readFileSync(p, 'utf8'))]. *)
Definition fs_readJSON (st : gmap path node) (p : path) : completion session :=
  match st !! p with
  | Some (SessionFile s) => Normal s
  | Some (OtherFile why) => Throw why
  | Some Folder => Throw EISDIR
  | None => Throw ENOENT
  end.

(** [fs.writeFileSync(p, JSON.stringify(session, null, 2))]: the parent
    must be a directory and [p] must not be one. *)
Definition fs_writeJSON (st : gmap path node) (p : path) (s : session)
  : completion (gmap path node) :=
  match st !! removelast p with
  | Some Folder =>
      match st !! p with
      | Some Folder => Throw EISDIR
      | _ => Normal (<[p := SessionFile s]> st)
      end
  | Some _ => Throw ENOTDIR
  | None => Throw ENOENT
  end.

(** [fs.unlinkSync(p)]. *)
Definition fs_unlink (st : gmap path node) (p : path) : completion (gmap path node) :=
  match st !! p with
  | Some Folder => Throw EPERM
  | Some _ => Normal (delete p st)
  | None => Throw ENOENT
  end.

Definition child_name (dir p : path) : option string :=
  match last p with
  | Some name => if bool_decide (removelast p = dir) then Some name else None
  | None => None
  end.

(** [fs.readdirSync(dir)]: the names directly inside [dir], in the order
    the file system yields them. *)
Definition fs_readdir (st : gmap path node) (dir : path) : completion (list string) :=
  match st !! dir with
  | Some Folder => Normal (omap (fun kv => child_name dir kv.1) (map_to_list st))
  | Some _ => Throw ENOTDIR
  | None => Throw ENOENT
  end.

(** ['sess_' + Date.now() + '_' + Math.random().toString(36).substr(2, 9)],
    given the clock reading and the random suffix. *)
Definition generateSessionId (now : Z) (random36 : string) : string :=
  "sess_" +:+ pretty now +:+ "_" +:+ random36.

(** [path.join(SESSIONS_DIR, `${sessionId}.json`)]. *)
Definition getSessionPath (SESSIONS_DIR : path) (sessionId : string) : path :=
  path_join SESSIONS_DIR (split slash (sessionId +:+ ".json")).

(** What [createSession] reads from the clock and the random generator:
    [Date.now()], the random suffix and the two [toISOString()] texts. *)
Record readings := {
  now_ms : Z;
  random36 : string;
  created_iso : string;
  updated_iso : string
}.

Definition createSession (SESSIONS_DIR : path) (r : readings) (st : gmap path node)
  : completion (session * gmap path node) :=
  let sessionId := generateSessionId (now_ms r) (random36 r) in
  let s := {| sess_id := sessionId; createdAt := created_iso r;
              updatedAt := updated_iso r; messages := [] |} in
  match fs_writeJSON st (getSessionPath SESSIONS_DIR sessionId) s with
  | Normal st' => Normal (s, st')
  | Throw e => Throw e
  end.

(** [getSession]: [None] is [null]. *)
Definition getSession (SESSIONS_DIR : path) (sessionId : string) (st : gmap path node)
  : completion (option session) :=
  let sessionPath := getSessionPath SESSIONS_DIR sessionId in
  if negb (fs_exists st sessionPath) then Normal None
  else match fs_readJSON st sessionPath with
       | Normal s => Normal (Some s)
       | Throw e => Throw e
       end.

(** [saveSession]: the session object is stamped, then written. *)
Definition saveSession (SESSIONS_DIR : path) (now_iso : string) (s : session)
    (st : gmap path node) : completion (session * gmap path node) :=
  let s' := {| sess_id := sess_id s; createdAt := createdAt s;
               updatedAt := now_iso; messages := messages s |} in
  match fs_writeJSON st (getSessionPath SESSIONS_DIR (sess_id s')) s' with
  | Normal st' => Normal (s', st')
  | Throw e => Throw e
  end.

Definition summarise (data : session) : listed :=
  {| listed_id := sess_id data; listed_createdAt := createdAt data;
     listed_updatedAt := updatedAt data;
     messageCount := length (messages data) |}.

(** [files.map(f => ...)]: the first file that cannot be read ends it. *)
Fixpoint read_all (st : gmap path node) (SESSIONS_DIR : path) (files : list string)
  : completion (list listed) :=
  match files with
  | [] => Normal []
  | f :: rest =>
      match fs_readJSON st (path_join SESSIONS_DIR [f]) with
      | Throw e => Throw e
      | Normal data =>
          match read_all st SESSIONS_DIR rest with
          | Throw e => Throw e
          | Normal l => Normal (summarise data :: l)
          end
      end
  end.

Section ByDate.

(** [new Date(text)] as a number, for the timestamps [toISOString]
    writes. *)
Variable Date_ms : string -> Z.

(** The comparator [(a, b) => new Date(b.updatedAt) - new Date(a.updatedAt)]. *)
Definition newest_first (a b : listed) : Z :=
  Date_ms (listed_updatedAt b) - Date_ms (listed_updatedAt a).


(** [Array.prototype.sort] is stable; with this comparator its result is
    the one of a stable insertion sort. *)
Fixpoint insert_sorted (x : listed) (l : list listed) : list listed :=
  match l with
  | [] => [x]
  | y :: rest =>
      if newest_first x y <=? 0 then x :: y :: rest
      else y :: insert_sorted x rest
  end.

Definition sort_newest_first (l : list listed) : list listed :=
  foldr insert_sorted [] l.

Definition listSessions (SESSIONS_DIR : path) (st : gmap path node)
  : completion (list listed) :=
  if negb (fs_exists st SESSIONS_DIR) then Normal []
  else
    match fs_readdir st SESSIONS_DIR with
    | Throw e => Throw e
    | Normal files =>
        match read_all st SESSIONS_DIR
                (List.filter (fun f => endsWith f ".json") files) with
        | Throw e => Throw e
        | Normal l => Normal (sort_newest_first l)
        end
    end.

End ByDate.

(** What a session endpoint sends. *)
Inductive reply :=
| Created (sessionId createdAt : string)
| Found (s : session)
| Listing (sessions : list listed)
| Success
| Failure (status : Z) (error : string).

(** [POST /api/session/create]. *)
Definition post_session_create (SESSIONS_DIR : path) (r : readings)
    (st : gmap path node) : reply * gmap path node :=
  match createSession SESSIONS_DIR r st with
  | Normal (s, st') => (Created (sess_id s) (createdAt s), st')
  | Throw _ => (Failure 500 "Failed to create session", st)
  end.

(** [GET /api/session/:id]. *)
Definition get_session (SESSIONS_DIR : path) (id : string) (st : gmap path node) : reply :=
  match getSession SESSIONS_DIR id st with
  | Normal (Some s) => Found s
  | Normal None => Failure 404 "Session not found"
  | Throw _ => Failure 500 "Failed to retrieve session"
  end.

(** [GET /api/sessions]. *)
Definition get_sessions (Date_ms : string -> Z) (SESSIONS_DIR : path)
    (st : gmap path node) : reply :=
  match listSessions Date_ms SESSIONS_DIR st with
  | Normal sessions => Listing sessions
  | Throw _ => Failure 500 "Failed to list sessions"
  end.

(** [DELETE /api/session/:id]. *)
Definition delete_session (SESSIONS_DIR : path) (id : string) (st : gmap path node)
  : reply * gmap path node :=
  let sessionPath := getSessionPath SESSIONS_DIR id in
  if fs_exists st sessionPath then
    match fs_unlink st sessionPath with
    | Normal st' => (Success, st')
    | Throw _ => (Failure 500 "Failed to delete session", st)
    end
  else (Failure 404 "Session not found", st).

End Sessions.

(** ** The code block taken from a chat answer *)

Module Chat.
Import JS.

Definition LF : ascii := "010"%char.
Definition backtick : ascii := "`"%char.

(** The two ends of the pattern [/```scad\n([\s\S]*?)\n```/]. *)
Definition fence_open : string := "```scad" +:+ String LF EmptyString.
Definition fence_close : string := String LF "```".

Fixpoint skip (n : nat) (s : string) : string :=
  match n, s with
  | S n', String _ s' => skip n' s'
  | _, _ => s
  end.

(** The text after the first occurrence of [pat]. *)
Fixpoint after_first (pat s : string) {struct s} : option string :=
  if String.prefix pat s then Some (skip (String.length pat) s)
  else match s with
       | EmptyString => None
       | String _ s' => after_first pat s'
       end.

(** The text before the first occurrence of [pat]. *)
Fixpoint before_first (pat s : string) {struct s} : option string :=
  if String.prefix pat s then Some EmptyString
  else match s with
       | EmptyString => None
       | String c s' => String c <$> before_first pat s'
       end.

(** [responseText.match(/```scad\n([\s\S]*?)\n```/)] followed by
    [scadMatch ? scadMatch[1] : null]: the leftmost opening fence that is
    followed by a closing one, and the shortest text between them. *)
Definition scadCode_of (responseText : string) : option string :=
  match after_first fence_open responseText with
  | Some rest => before_first fence_close rest
  | None => None
  end.

Fixpoint has_backtick (s : string) : bool :=
  match s with
  | EmptyString => false
  | String c s' => Ascii.eqb c backtick || has_backtick s'
  end.

End Chat.

(** ** The reply of the renderer that runs the OpenSCAD program *)

Module Rendered.
Import JS Node Api.

Definition EPERM_unlink : js_error := Error "EPERM: operation not permitted, unlink".

(** [fs.unlinkSync(p)]. *)
Definition unlinkSync (fs : gmap path fs_entry) (p : path) : completion (gmap path fs_entry) :=
  match fs !! p with
  | Some Directory => Throw EPERM_unlink
  | Some _ => Normal (delete p fs)
  | None => Throw ENOENT
  end.

(** [if (fs.existsSync(p)) fs.unlinkSync(p);]. *)
Definition unlink_if_exists (fs : gmap path fs_entry) (p : path)
  : completion (gmap path fs_entry) :=
  if existsSync fs p then unlinkSync fs p else Normal fs.

(** The inner [try { ... } catch (e) { console.error("Cleanup error", e) }]:
    the file system afterwards and what was logged. *)
Definition clean_up (fs : gmap path fs_entry) (scadPath stlPath : path)
  : gmap path fs_entry * list js_error :=
  match unlink_if_exists fs scadPath with
  | Throw e => (fs, [e])
  | Normal fs1 =>
      match unlink_if_exists fs1 stlPath with
      | Throw e => (fs1, [e])
      | Normal fs2 => (fs2, [])
      end
  end.

(** [sendResponse(stlPath, scadPath, scadCode, res)]: the response, the
    file system afterwards and the errors written to the console. *)
Definition sendResponse (fs : gmap path fs_entry) (stlPath scadPath : path)
    (scadCode : json) : http_response * gmap path fs_entry * list js_error :=
  match readFileSync fs stlPath with
  | Normal stlContent =>
      let '(fs', logged) := clean_up fs scadPath stlPath in
      ({| status_code := 200;
          sent := [("stlData", JString (base64 (Buffer_bytes stlContent)));
                   ("scadCode", scadCode)] |},
       fs', logged)
  | Throw readError =>
      ({| status_code := 500;
          sent := [("error", JString "Failed to read generated model")] |},
       fs, [readError])
  end.

End Rendered.

(** ** More of the coordinator's vocabulary *)

Module Quiet.
Import JS Coordinator Stated.

(** An event no callback reacts to: a message that is not effective, or
    an exit with code 0. *)
Definition silent (ev : event) : bool :=
  match ev with
  | EvMessage msg => negb (acts_on msg)
  | EvExit code => code =? 0
  | _ => false
  end.

Definition success_message (file : string) (out : list byte)
    (more : list (string * list byte)) : worker_message :=
  MsgObject (Some {| outputs := Some ((file, out) :: more) |}) None.

End Quiet.

Import JS Node Shim Coordinator Api Stated.

Ltac unfold_callback :=
  unfold on_message, on_timeout, on_error, on_exit, seq, skip.

Ltac case_settled st :=
  destruct (settled st) eqn:?; simpl; try congruence; try reflexivity.

(** * Facts about the JavaScript helpers *)

Example split_ex : split slash "a/b//c/" = ["a"; "b"; EmptyString; "c"; EmptyString].
Proof. reflexivity. Qed.

Example base64_Man :
  base64 ["M"%byte; "a"%byte; "n"%byte] = "TWFu"
  /\ base64 ["M"%byte; "a"%byte] = "TWE="
  /\ base64 ["M"%byte] = "TQ==".
Proof. repeat split; reflexivity. Qed.

(** Rounding at the first integers that are not doubles, and at the
    largest double. *)
Example to_double_ex :
  to_double (2 ^ 53) = Num (2 ^ 53)
  /\ to_double (2 ^ 53 + 1) = Num (2 ^ 53)
  /\ to_double (2 ^ 53 + 2) = Num (2 ^ 53 + 2)
  /\ to_double (2 ^ 53 + 3) = Num (2 ^ 53 + 4)
  /\ to_double (2 ^ 54 + 2) = Num (2 ^ 54)
  /\ to_double (2 ^ 54 + 3) = Num (2 ^ 54 + 4)
  /\ to_double (2 ^ 1024 - 2 ^ 970 - 1) = Num (2 ^ 1024 - 2 ^ 971)
  /\ to_double (2 ^ 1024 - 2 ^ 970) = Infinity false.
Proof. repeat split; vm_compute; reflexivity. Qed.

Example parseInt_ex :
  parseInt10 "120000" = Num 120000
  /\ parseInt10 "  -15px" = Num (-15)
  /\ parseInt10 "abc" = NaN
  /\ parseInt10 EmptyString = NaN
  /\ parseInt10 "9007199254740993" = Num 9007199254740992
  /\ parseInt10 "100000000000000000000000" = Num 99999999999999991611392
  /\ parseInt10 (String (ascii_of_N 194) (String (ascii_of_N 160) "5")) = Num 5
  /\ parseInt10 (String (ascii_of_N 160) "5") = NaN
  /\ parseInt10 "-0" = NegZero
  /\ parseInt10 "+7.5" = Num 7
  /\ parseInt10 "- 7" = NaN
  /\ parseInt10 ("-1" +:+ string_of_list_ascii (replicate 309 "0"%char)) = Infinity true
  /\ parseInt10 (string_of_list_ascii (replicate 400 "0"%char) +:+ "42") = Num 42.
Proof. repeat split; reflexivity. Qed.

Lemma Buffer_bytes_from (bs : list byte) : Buffer_bytes (Buffer_from bs) = bs.
Proof. unfold Buffer_bytes, Buffer_from; simpl. apply firstn_all. Qed.

Lemma slice_is_view (b : Buffer) :
  ArrayBuffer_slice (buffer b) (byteOffset b) (byteOffset b + byteLength b)
  = Buffer_bytes b.
Proof.
  unfold ArrayBuffer_slice, Buffer_bytes.
  destruct b as [pool off len]; simpl.
  destruct (Nat.le_gt_cases off (length pool)) as [Hle | Hgt].
  - rewrite (Nat.min_l off) by lia.
    destruct (Nat.le_gt_cases (off + len) (length pool)) as [Hin | Hout].
    + rewrite Nat.min_l by lia. f_equal. lia.
    + rewrite Nat.min_r by lia.
      rewrite (take_ge (drop off pool) len) by (rewrite length_drop; lia).
      apply take_ge. rewrite length_drop. lia.
  - rewrite (Nat.min_r off) by lia.
    rewrite (drop_ge pool off), (drop_ge pool (length pool)) by lia.
    now rewrite !take_nil.
Qed.

Lemma arrayBuffer_bytes (r : ResponseMock) :
  arrayBuffer r = Fulfilled (body_bytes r).
Proof.
  unfold arrayBuffer, body_bytes. destruct (body r) as [b | ab]; [| reflexivity].
  now rewrite slice_is_view.
Qed.

(** * Facts about the coordinator's transitions *)

Lemma settled_terminate st : settled (terminate st) = settled st.
Proof. reflexivity. Qed.

Lemma settled_clearTimeout st : settled (clearTimeout st) = settled st.
Proof. unfold clearTimeout. now destruct (timer st). Qed.

Lemma resolve_after_settlement v st : settled st <> Pending -> resolve v st = st.
Proof. unfold resolve. now destruct (settled st). Qed.

Lemma reject_after_settlement e st : settled st <> Pending -> reject e st = st.
Proof. unfold reject. now destruct (settled st). Qed.

Lemma settled_resolve v st :
  settled (resolve v st) = match settled st with Pending => Resolved v | s => s end.
Proof. unfold resolve. now destruct (settled st) eqn:E; simpl; rewrite ?E. Qed.

Lemma settled_reject e st :
  settled (reject e st) = match settled st with Pending => Failed e | s => s end.
Proof. unfold reject. now destruct (settled st) eqn:E; simpl; rewrite ?E. Qed.

Ltac run_callback :=
  unfold_callback;
  repeat (rewrite ?settled_resolve, ?settled_reject, ?settled_terminate,
                  ?settled_clearTimeout; simpl).

Lemma settled_on_message msg st :
  settled (on_message msg st) =
  match settled st with
  | Pending =>
      match msg with
      | MsgObject (Some result) _ =>
          match outputs result with
          | Some ((_, out) :: _) => Resolved (base64 out)
          | _ => Failed no_output
          end
      | MsgObject None (Some err) =>
          if String.eqb err EmptyString then Pending else Failed (Error err)
      | _ => Pending
      end
  | s => s
  end.
Proof.
  destruct msg as [| [[[[|[p out] rest]|]]|] [err|]]; run_callback;
    rewrite ?Buffer_bytes_from; try (destruct (settled st); reflexivity).
  all: destruct (String.eqb err EmptyString); run_callback;
    destruct (settled st); reflexivity.
Qed.

Lemma step_after_settlement st ev :
  settled st <> Pending -> settled (step st ev) = settled st.
Proof.
  intros Hs. destruct ev as [msg | | err | code]; simpl.
  - rewrite settled_on_message. now destruct (settled st).
  - destruct (timer st); try reflexivity. run_callback. now destruct (settled st).
  - run_callback. now destruct (settled st).
  - unfold on_exit. destruct (code =? 0); run_callback; now destruct (settled st).
Qed.

Lemma run_app st evs evs' : run st (evs ++ evs') = run (run st evs) evs'.
Proof. apply fold_left_app. Qed.

Lemma run_after_settlement evs : forall st,
  settled st <> Pending -> settled (run st evs) = settled st.
Proof.
  induction evs as [| ev evs IH]; intros st Hs; [reflexivity |].
  simpl. rewrite IH; rewrite step_after_settlement; auto.
Qed.

(** The coordinator's invariant. *)

Lemma coherent_start h scadCode : starts h -> coherent (renderLocally h scadCode).
Proof.
  intros [Hex Hw]. unfold renderLocally. rewrite Hex, Hw. exact I.
Qed.

Lemma pending_start h scadCode : starts h -> settled (renderLocally h scadCode) = Pending.
Proof.
  intros [Hex Hw]. unfold renderLocally. now rewrite Hex, Hw.
Qed.

Lemma coherent_step st ev : coherent st -> coherent (step st ev).
Proof.
  unfold coherent. destruct st as [s t n sp po]. intros Hc.
  destruct ev as [msg | | err | code]; simpl in *.
  - destruct msg as [| [[[[|[p out] rest]|]]|] [err|]];
      unfold_callback; simpl; try assumption;
      try (destruct (String.eqb err EmptyString); unfold_callback; simpl; try assumption);
      destruct t, s; simpl in *; intuition (congruence || lia).
  - destruct t, s; simpl in *; intuition (congruence || lia).
  - unfold_callback. destruct t, s; simpl in *; intuition (congruence || lia).
  - unfold_callback. destruct (code =? 0), t, s; simpl in *; intuition (congruence || lia).
Qed.

Lemma coherent_run evs : forall st, coherent st -> coherent (run st evs).
Proof.
  induction evs as [| ev evs IH]; intros st Hc; [assumption |].
  simpl. apply IH, coherent_step, Hc.
Qed.

Lemma pending_is_armed st : coherent st -> settled st = Pending -> exists d, timer st = Armed d.
Proof.
  unfold coherent. destruct (timer st); intros Hc Hp; try tauto; eauto.
Qed.

Lemma exit_path_settles st ev :
  coherent st -> exit_path ev = true -> settled (step st ev) <> Pending.
Proof.
  intros Hc Hev. destruct (settled st) eqn:Hs.
  2,3: rewrite step_after_settlement; congruence.
  destruct (pending_is_armed st Hc Hs) as [d Hd].
  destruct ev as [msg | | err | code]; simpl in *.
  - rewrite settled_on_message, Hs.
    destruct msg as [| [[[[|[p out] rest]|]]|] [err|]]; simpl in *; try congruence.
    destruct (String.eqb err EmptyString); simpl in *; congruence.
  - rewrite Hd. run_callback. rewrite Hs. congruence.
  - run_callback. rewrite Hs. congruence.
  - unfold on_exit. destruct (code =? 0); simpl in *; [congruence |].
    run_callback. rewrite Hs. congruence.
Qed.

Lemma cleaning_path_releases st ev :
  coherent st -> cleaning_path ev = true -> released (step st ev).
Proof.
  unfold coherent, released. destruct st as [s t n sp po]. intros Hc Hev.
  destruct ev as [msg | | err | code]; simpl in *; try congruence.
  - destruct msg as [| [[[[|[p out] rest]|]]|] [err|]]; simpl in *; try congruence;
      unfold_callback; simpl;
      try (destruct (String.eqb err EmptyString); simpl in *; try congruence;
           unfold_callback; simpl);
      destruct t, s; simpl in *; split; try lia; intros; congruence.
  - destruct t, s; simpl in *; split; try lia; try tauto; intros; congruence.
Qed.

Lemma terminate_calls_on_error st err :
  terminate_calls (step st (EvError err)) = terminate_calls st.
Proof. simpl. unfold on_error, reject. now destruct (settled st). Qed.

Lemma terminate_calls_on_exit st code :
  terminate_calls (step st (EvExit code)) = terminate_calls st.
Proof.
  simpl. unfold on_exit, reject, skip.
  destruct (code =? 0); [reflexivity |]. now destruct (settled st).
Qed.

Lemma ignored_message st msg : acts_on msg = false -> step st (EvMessage msg) = st.
Proof.
  intros Hno. destruct msg as [| [r|] [err|]]; simpl in *;
    try discriminate; try reflexivity.
  destruct (String.eqb err EmptyString); simpl in *; [reflexivity | discriminate].
Qed.

(** * The job coordinator's guarantees *)

(** What the callbacks of the coordinator do.  A started job is pending when
    [renderLocally] returns; each of the five exit paths (result message,
    error message, timer expiry, ['error'] event, exit with a nonzero code)
    leaves it settled, and a settled job keeps its outcome whatever is
    delivered later.  On the message and timer paths the coordinator has
    terminated the worker and the timer is no longer armed (one
    [terminate] call when it is the first event).  The ['error'] and
    ['exit'] callbacks issue no [terminate] call. *)
Lemma job_settles_once_and_cleans_up_on_message_and_timer :
  forall (h : host) (scadCode : json),
    starts h ->
    let st0 := renderLocally h scadCode in
    settled st0 = Pending
    /\ (forall evs ev, exit_path ev = true ->
          settled (run st0 (evs ++ [ev])) <> Pending)
    /\ (forall evs evs', settled (run st0 evs) <> Pending ->
          settled (run st0 (evs ++ evs')) = settled (run st0 evs))
    /\ (forall evs ev, cleaning_path ev = true -> released (run st0 (evs ++ [ev])))
    /\ (forall ev, cleaning_path ev = true -> terminate_calls (step st0 ev) = 1%nat)
    /\ (forall evs err,
          terminate_calls (run st0 (evs ++ [EvError err])) = terminate_calls (run st0 evs))
    /\ (forall evs code,
          terminate_calls (run st0 (evs ++ [EvExit code])) = terminate_calls (run st0 evs)).
Proof.
  intros h scadCode Hs st0.
  pose proof (coherent_start h scadCode Hs) as Hc.
  pose proof (pending_start h scadCode Hs) as Hp.
  fold st0 in Hc, Hp.
  split; [exact Hp |].
  split.
  { intros evs ev Hev. rewrite run_app. simpl.
    apply exit_path_settles; [apply coherent_run, Hc | exact Hev]. }
  split.
  { intros evs evs' Hset. rewrite run_app. now apply run_after_settlement. }
  split.
  { intros evs ev Hev. rewrite run_app. simpl.
    apply cleaning_path_releases; [apply coherent_run, Hc | exact Hev]. }
  split.
  { intros ev Hev. destruct Hs as [Hex Hw].
    subst st0. unfold renderLocally. rewrite Hex, Hw. simpl.
    destruct ev as [msg | | err | code]; simpl in *; try discriminate; [| reflexivity].
    destruct msg as [| [[[[|[p out] rest]|]]|] [err|]]; simpl in *;
      try discriminate; try reflexivity.
    destruct (String.eqb err EmptyString); simpl in *; [discriminate | reflexivity]. }
  split.
  - intros evs err. rewrite run_app. simpl. apply (terminate_calls_on_error _ err).
  - intros evs code. rewrite run_app. simpl. apply (terminate_calls_on_exit _ code).
Qed.

Import Lifecycle.

Lemma the_job_deliver_all evs : forall r,
  the_job (deliver_all r evs) = run (the_job r) evs.
Proof.
  induction evs as [| ev evs IH]; intros r; [reflexivity |].
  simpl. now rewrite IH.
Qed.

Lemma deliver_all_app r evs evs' :
  deliver_all r (evs ++ evs') = deliver_all (deliver_all r evs) evs'.
Proof. apply fold_left_app. Qed.

Lemma ended_worker_stays_ended evs : forall r,
  the_worker r = Ended -> the_worker (deliver_all r evs) = Ended.
Proof.
  induction evs as [| ev evs IH]; intros r Hw; [exact Hw |].
  simpl. apply IH. simpl. now rewrite Hw.
Qed.

Lemma absent_worker_stays_absent evs : forall r,
  the_worker r = NotCreated -> the_worker (deliver_all r evs) = NotCreated.
Proof.
  induction evs as [| ev evs IH]; intros r Hw; [exact Hw |].
  simpl. apply IH. simpl. now rewrite Hw.
Qed.

Lemma one_more_call n : (n <? S n)%nat = true.
Proof. apply Nat.ltb_lt. lia. Qed.

Lemma timer_spent_by_its_expiry st d : timer (step st EvTimeout) <> Armed d.
Proof.
  simpl. destruct (timer st) eqn:Ht; try (rewrite Ht; discriminate).
  unfold_callback. destruct (settled st); simpl; discriminate.
Qed.

Lemma watched_launch h scadCode : starts h -> watched (launch h scadCode).
Proof.
  intros [Hex Hw]. unfold watched, launch, renderLocally. rewrite Hex, Hw. simpl.
  repeat split; [discriminate | eauto].
Qed.

Lemma step_of_a_job_under_deadline st ev d :
  timer st = Armed d ->
  (cleaning_path ev = true
   /\ terminate_calls (step st ev) = S (terminate_calls st)
   /\ forall d', timer (step st ev) <> Armed d')
  \/ (cleaning_path ev = false
      /\ terminate_calls (step st ev) = terminate_calls st
      /\ timer (step st ev) = Armed d).
Proof.
  intros Hd. destruct st as [s t n sp po]. simpl in Hd. subst t.
  destruct ev as [msg | | err | code].
  - destruct msg as [| [result |] [err |]]; cbn [step on_message cleaning_path acts_on].
    + right. now repeat split.
    + left. destruct (outputs result) as [[| [p out] rest] |];
        unfold_callback; destruct s; simpl; repeat split; discriminate.
    + left. destruct (outputs result) as [[| [p out] rest] |];
        unfold_callback; destruct s; simpl; repeat split; discriminate.
    + destruct (String.eqb err EmptyString); simpl; [right; now repeat split |].
      left. unfold_callback; destruct s; simpl; repeat split; discriminate.
    + right. now repeat split.
  - left. simpl. unfold_callback. destruct s; simpl; repeat split; discriminate.
  - right. simpl. unfold_callback. destruct s; simpl; now repeat split.
  - right. simpl. unfold_callback. destruct (code =? 0); destruct s; simpl; now repeat split.
Qed.

Lemma exit_path_ends_the_worker r ev :
  watched r -> exit_path ev = true -> the_worker (deliver r ev) = Ended.
Proof.
  intros (Hc & Hn & Hrun) Hev. unfold deliver. cbn [the_worker].
  destruct (the_worker r) eqn:Hw; [now destruct Hn | | reflexivity].
  destruct (Hrun eq_refl) as [d Hd].
  destruct (step_of_a_job_under_deadline (the_job r) ev d Hd)
    as [(_ & Ht & _) | (Hcl & _ & _)].
  - rewrite Ht, one_more_call. now destruct ev.
  - destruct ev; try reflexivity; simpl in Hev, Hcl; congruence.
Qed.

Lemma watched_deliver r ev : watched r -> watched (deliver r ev).
Proof.
  intros (Hc & Hn & Hrun). unfold watched. cbn [deliver the_job the_worker].
  split; [now apply coherent_step |].
  destruct (the_worker r) eqn:Hw; [now destruct Hn | | split; discriminate].
  destruct (Hrun eq_refl) as [d Hd].
  destruct (step_of_a_job_under_deadline (the_job r) ev d Hd)
    as [(_ & Ht & _) | (_ & Ht & Hti)].
  - rewrite Ht, one_more_call. destruct ev; split; discriminate.
  - rewrite Ht, Nat.ltb_irrefl. destruct ev; split; try discriminate; eauto.
Qed.

Lemma watched_deliver_all evs : forall r, watched r -> watched (deliver_all r evs).
Proof.
  induction evs as [| ev evs IH]; intros r Hw; [exact Hw |].
  simpl. apply IH, watched_deliver, Hw.
Qed.

(** C1: the promise returned by [renderLocally] settles exactly once and
    the worker is terminated on every exit path.  A settled promise never
    changes, whatever is delivered later.  When the job cannot start it is
    rejected at once and there is no worker.  When it starts, the promise
    is pending and the worker runs; after each of the five exit paths
    (result message, error message, timer expiry, ['error'] event, exit
    with a nonzero code), in any history, the promise is settled and the
    worker has ended, for good: the coordinator has terminated it, or it
    had stopped by itself.  Nothing is left behind: on the message and
    timer paths the coordinator has called [terminate] and the deadline
    timer is disarmed at once; otherwise the most that remains is that
    timer, whose expiry only spends it, changing neither the outcome nor
    the worker. *)
Theorem C1_settles_once_and_the_worker_ends_on_every_exit_path :
  forall (h : host) (scadCode : json),
    let r0 := launch h scadCode in
    (forall evs evs',
       settled (the_job (deliver_all r0 evs)) <> Pending ->
       settled (the_job (deliver_all r0 (evs ++ evs')))
       = settled (the_job (deliver_all r0 evs)))
    /\ (~ starts h ->
          settled (the_job r0) <> Pending
          /\ spawned (the_job r0) = 0%nat
          /\ forall evs, the_worker (deliver_all r0 evs) = NotCreated)
    /\ (starts h ->
          settled (the_job r0) = Pending
          /\ spawned (the_job r0) = 1%nat
          /\ the_worker r0 = Running
          /\ forall evs ev,
               exit_path ev = true ->
               let r := deliver_all r0 (evs ++ [ev]) in
               settled (the_job r) <> Pending
               /\ the_worker r = Ended
               /\ (forall later, the_worker (deliver_all r later) = Ended)
               /\ (cleaning_path ev = true -> released (the_job r))
               /\ (forall d, timer (the_job (deliver r EvTimeout)) <> Armed d)
               /\ settled (the_job (deliver r EvTimeout)) = settled (the_job r)
               /\ the_worker (deliver r EvTimeout) = Ended).
Proof.
  intros h scadCode r0. split; [| split].
  - intros evs evs' Hs. rewrite deliver_all_app, (the_job_deliver_all evs').
    now apply run_after_settlement.
  - intros Hno.
    assert (Hst : exists e, the_job r0 = not_started e).
    { subst r0. unfold launch, renderLocally. cbn [the_job].
      destruct (existsSync (fs h) _) eqn:Hex; simpl; [| eauto].
      destruct (Worker_throws h) as [e |] eqn:Hw; [eauto |].
      destruct Hno. now split. }
    destruct Hst as [e He].
    assert (Hw : the_worker r0 = NotCreated).
    { subst r0. unfold launch in *. cbn [the_job the_worker] in *. now rewrite He. }
    rewrite He. repeat split; try discriminate.
    intros evs. now apply absent_worker_stays_absent.
  - intros Hs.
    pose proof (watched_launch h scadCode Hs) as Hw0. fold r0 in Hw0.
    assert (Hj0 : the_job r0 = renderLocally h scadCode) by reflexivity.
    split; [rewrite Hj0; now apply pending_start |].
    assert (Hsp : spawned (the_job r0) = 1%nat).
    { rewrite Hj0. destruct Hs as [Hex Hw]. unfold renderLocally. now rewrite Hex, Hw. }
    split; [exact Hsp |].
    split.
    { subst r0. unfold launch in *. cbn [the_worker the_job] in *. now rewrite Hsp. }
    intros evs ev Hev. cbv zeta. rewrite deliver_all_app.
    set (r := deliver_all r0 evs).
    assert (Hw : watched r) by (now apply watched_deliver_all).
    change (deliver_all r [ev]) with (deliver r ev).
    assert (Hset : settled (the_job (deliver r ev)) <> Pending).
    { cbn [deliver the_job]. destruct Hw as (Hc & _). now apply exit_path_settles. }
    assert (Hend : the_worker (deliver r ev) = Ended)
      by (now apply exit_path_ends_the_worker).
    split; [exact Hset |]. split; [exact Hend |].
    split; [intros later; now apply ended_worker_stays_ended |].
    split.
    { intros Hclean. cbn [deliver the_job]. destruct Hw as (Hc & _).
      now apply cleaning_path_releases. }
    split; [intros d; apply timer_spent_by_its_expiry |].
    split; [now apply step_after_settlement |].
    exact (ended_worker_stays_ended [EvTimeout] _ Hend).
Qed.

Lemma C1_sample_crash :
  let r := deliver_all (launch Sample.server Sample.cube)
             ([EvMessage MsgFalsy] ++ [EvError (Error "RuntimeError: unreachable")]) in
  settled (the_job r) <> Pending /\ the_worker r = Ended.
Proof.
  assert (Hs : starts Sample.server) by (split; vm_compute; reflexivity).
  destruct (C1_settles_once_and_the_worker_ends_on_every_exit_path
              Sample.server Sample.cube) as (_ & _ & Hstarted).
  destruct (Hstarted Hs) as (_ & _ & _ & Hexit).
  destruct (Hexit [EvMessage MsgFalsy] (EvError (Error "RuntimeError: unreachable"))
              eq_refl) as (Hset & Hend & _).
  split; [exact Hset | exact Hend].
Defined.

(** C2: in a pending job, a success message whose [result.outputs] starts
    with the pair [(p, out)] resolves the promise with the base64 text of
    [out], whatever [p] and the later entries are; a [result] whose
    [outputs] is missing or empty rejects it with
    'No output produced by OpenSCAD WASM worker'. *)
Theorem C2_first_output_in_base64_or_no_output :
  forall (st : job) (err : option string),
    settled st = Pending ->
    (forall p out rest,
        settled (step st (EvMessage
                   (MsgObject (Some {| outputs := Some ((p, out) :: rest) |}) err)))
        = Resolved (base64 out))
    /\ settled (step st (EvMessage (MsgObject (Some {| outputs := None |}) err)))
       = Failed (Error "No output produced by OpenSCAD WASM worker")
    /\ settled (step st (EvMessage (MsgObject (Some {| outputs := Some [] |}) err)))
       = Failed (Error "No output produced by OpenSCAD WASM worker").
Proof.
  intros st err Hp.
  repeat split; intros; cbn [step]; rewrite settled_on_message, Hp; reflexivity.
Qed.

Lemma C2_sample_output :
  settled (renderLocally Sample.server Sample.cube) = Pending
  /\ settled (step (renderLocally Sample.server Sample.cube)
                   (EvMessage (MsgObject
                      (Some {| outputs := Some [("other.stl", [x73; x6f; x6c]);
                                                ("output.stl", [])] |}) None)))
     = Resolved "c29s".
Proof.
  assert (Hp : settled (renderLocally Sample.server Sample.cube) = Pending)
    by (vm_compute; reflexivity).
  split; [exact Hp |].
  destruct (C2_first_output_in_base64_or_no_output _ None Hp) as (Hfirst & _).
  apply (Hfirst "other.stl" [x73; x6f; x6c] [("output.stl", [])]).
Defined.

(** C3, as stated, fails: a message whose [error] field is the empty
    string contains an [error] field, yet it is passed over without any
    effect, and a later message is the one that settles the job. *)
Lemma C3_empty_error_message_is_passed_over :
  let st0 := renderLocally Sample.server Sample.cube in
  terminal_shaped Sample.empty_error_message = true
  /\ step st0 (EvMessage Sample.empty_error_message) = st0
  /\ settled (run st0 [EvMessage Sample.empty_error_message;
                       EvMessage Sample.stl_message]) = Resolved "c29s".
Proof. vm_compute. repeat split; reflexivity. Qed.

(** C3, amended: in a pending job with its timer armed, whichever of the
    timer and an effective message comes first decides the settlement: a
    message after the expiry leaves the timeout failure in place, and after
    an effective message the timer is cleared, so its expiry changes
    nothing at all.  A message is effective when it carries a [result]
    object or a non-empty [error] string; every other message (no such
    field, or an empty [error] string) leaves the job exactly as it was.
    Of a sequence of messages, the first effective one settles the job. *)
Theorem C3_first_effective_callback_decides :
  forall st : job,
    settled st = Pending ->
    (forall d msg, timer st = Armed d -> acts_on msg = true ->
        settled (run st [EvTimeout; EvMessage msg]) = Failed timed_out
        /\ run st [EvMessage msg; EvTimeout] = step st (EvMessage msg)
        /\ settled (step st (EvMessage msg)) <> Pending)
    /\ (forall st' msg, acts_on msg = false -> step st' (EvMessage msg) = st')
    /\ (forall msgs,
          settled (run st (map EvMessage msgs)) =
          match List.find acts_on msgs with
          | Some m => settled (step st (EvMessage m))
          | None => Pending
          end).
Proof.
  intros st Hp. split; [| split].
  - intros d msg Hd Hact.
    assert (Hto : settled (step st EvTimeout) = Failed timed_out).
    { simpl. rewrite Hd. run_callback. now rewrite Hp. }
    split; [| split].
    + change (run st [EvTimeout; EvMessage msg])
        with (step (step st EvTimeout) (EvMessage msg)).
      rewrite step_after_settlement; rewrite Hto; congruence.
    + change (run st [EvMessage msg; EvTimeout])
        with (step (step st (EvMessage msg)) EvTimeout).
      assert (Ht : timer (step st (EvMessage msg)) = Cleared).
      { destruct st as [s t n sp po]. simpl in Hd. subst t.
        destruct msg as [| [[[[|[p out] rest]|]]|] [err|]]; simpl in *;
          try discriminate; unfold_callback; simpl;
          try (destruct (String.eqb err EmptyString); simpl in *; try discriminate;
               unfold_callback; simpl);
          destruct s; reflexivity. }
      simpl. simpl in Ht. now rewrite Ht.
    + simpl. rewrite settled_on_message, Hp.
      destruct msg as [| [[[[|[p out] rest]|]]|] [err|]]; simpl in *;
        try discriminate.
      destruct (String.eqb err EmptyString); simpl in *; discriminate.
  - intros st' msg. apply ignored_message.
  - intros msgs. induction msgs as [| m msgs IH]; [exact Hp |].
    simpl. destruct (acts_on m) eqn:Hm.
    + fold (run (on_message m st) (map EvMessage msgs)).
      apply run_after_settlement.
      rewrite settled_on_message, Hp.
      destruct m as [| [[[[|[p out] rest]|]]|] [err|]]; simpl in *;
        try discriminate.
      destruct (String.eqb err EmptyString); simpl in *; discriminate.
    + pose proof (ignored_message st m Hm) as Hig. simpl in Hig.
      rewrite Hig. exact IH.
Qed.

Lemma C3_sample_race :
  settled (renderLocally Sample.server Sample.cube) = Pending
  /\ settled (run (renderLocally Sample.server Sample.cube)
                  (map EvMessage [MsgFalsy; Sample.empty_error_message;
                                  Sample.parse_error_message; Sample.stl_message]))
     = Failed (Error "Parser error in line 1").
Proof.
  assert (Hp : settled (renderLocally Sample.server Sample.cube) = Pending)
    by (vm_compute; reflexivity).
  split; [exact Hp |].
  destruct (C3_first_effective_callback_decides _ Hp) as (_ & _ & Hfirst).
  rewrite Hfirst. vm_compute. reflexivity.
Defined.

(** * The deadline *)














(** * The render endpoint *)

(** C7: a request whose [scadCode] is missing or empty (or falsy in any
    other way) is answered with status 400 and 'SCAD code is required';
    [renderLocally] is not called and no worker is created, whatever the
    host and the events. *)
Theorem C7_scad_code_required :
  forall (h : host) (body : gmap string json) (evs : list event),
    truthy (body !! "scadCode") = false ->
    response (api_render h body evs)
    = Some {| status_code := 400;
              sent := [("error", JString "SCAD code is required")] |}
    /\ render_job (api_render h body evs) = None
    /\ spawn_count (api_render h body evs) = 0%nat
    /\ truthy None = false
    /\ truthy (Some (JString EmptyString)) = false.
Proof.
  intros h body evs Hfalsy. unfold api_render, spawn_count.
  destruct (body !! "scadCode") as [code |]; [rewrite Hfalsy |]; repeat split.
Qed.

Lemma C7_sample_empty_code :
  response (api_render Sample.server {[ "scadCode" := JString EmptyString ]}
                       [EvMessage Sample.stl_message])
  = Some {| status_code := 400;
            sent := [("error", JString "SCAD code is required")] |}
  /\ spawn_count (api_render Sample.server ∅ [EvMessage Sample.stl_message]) = 0%nat.
Proof.
  split.
  - apply (C7_scad_code_required Sample.server
             {[ "scadCode" := JString EmptyString ]} [EvMessage Sample.stl_message]).
    vm_compute. reflexivity.
  - apply (C7_scad_code_required Sample.server ∅ [EvMessage Sample.stl_message]).
    vm_compute. reflexivity.
Defined.

(** C8, as stated, fails: a timeout and an error reported by the kernel
    are different failures of [renderLocally], yet the endpoint answers
    both with the same body, whose only text is the generic
    'Internal server error during rendering'. *)
Lemma C8_same_answer_for_timeout_and_kernel_error :
  let body : gmap string json := {[ "scadCode" := Sample.cube ]} in
  let late := api_render Sample.server body [EvTimeout] in
  let bad := api_render Sample.server body [EvMessage Sample.parse_error_message] in
  console_error late = [Error "OpenSCAD WASM worker timed out"]
  /\ console_error bad = [Error "Parser error in line 1"]
  /\ response late = Some server_error
  /\ response bad = Some server_error
  /\ response late = response bad.
Proof. vm_compute. repeat split; reflexivity. Qed.

(** C8, amended: [renderLocally] keeps the failures apart: on a pending
    job a timer expiry rejects with 'OpenSCAD WASM worker timed out', a
    non-empty [error] message with that very text, an ['error'] event with
    the error it carries, an exit with a nonzero code with
    'OpenSCAD worker exited with code <code>', and a result without
    outputs with 'No output produced by OpenSCAD WASM worker'.  For a
    request with a usable [scadCode], every such failure is answered with
    status 500 and the one fixed text
    'Internal server error during rendering'; the failure itself is
    written to the console and is not part of the response. *)
Theorem C8_failures_kept_apart_then_one_server_error :
  (forall st : job, settled st = Pending ->
     (forall d, timer st = Armed d ->
        settled (step st EvTimeout) = Failed (Error "OpenSCAD WASM worker timed out"))
     /\ (forall text, text <> EmptyString ->
           settled (step st (EvMessage (MsgObject None (Some text))))
           = Failed (Error text))
     /\ (forall err, settled (step st (EvError err)) = Failed err)
     /\ (forall code, code <> 0 ->
           settled (step st (EvExit code))
           = Failed (Error ("OpenSCAD worker exited with code " +:+ pretty code)))
     /\ (forall err,
           settled (step st (EvMessage (MsgObject (Some {| outputs := None |}) err)))
           = Failed (Error "No output produced by OpenSCAD WASM worker")))
  /\ (forall (h : host) (body : gmap string json) (code : json)
             (evs : list event) (e : js_error),
        body !! "scadCode" = Some code ->
        truthy (Some code) = true ->
        settled (run (renderLocally h code) evs) = Failed e ->
        response (api_render h body evs) = Some server_error
        /\ console_error (api_render h body evs) = [e]).
Proof.
  split.
  - intros st Hp. repeat split.
    + intros d Hd. simpl. rewrite Hd. run_callback. now rewrite Hp.
    + intros text Hne. cbn [step]. rewrite settled_on_message, Hp.
      destruct (String.eqb_spec text EmptyString); [contradiction | reflexivity].
    + intros err. simpl. run_callback. now rewrite Hp.
    + intros code Hne. simpl. unfold on_exit.
      destruct (Z.eqb_spec code 0); [contradiction |].
      run_callback. now rewrite Hp.
    + intros err. cbn [step]. now rewrite settled_on_message, Hp.
  - intros h body code evs e Hb Ht Hf. unfold api_render.
    rewrite Hb, Ht. simpl. rewrite Hf. split; reflexivity.
Qed.

Lemma C8_sample_exit_code :
  response (api_render Sample.server {[ "scadCode" := Sample.cube ]} [EvExit 1])
  = Some server_error
  /\ console_error (api_render Sample.server {[ "scadCode" := Sample.cube ]} [EvExit 1])
     = [Error "OpenSCAD worker exited with code 1"].
Proof.
  destruct C8_failures_kept_apart_then_one_server_error as [_ Hapi].
  apply (Hapi Sample.server {[ "scadCode" := Sample.cube ]} Sample.cube [EvExit 1]);
    vm_compute; reflexivity.
Defined.

(** * The shim: fetch and the asset resolver *)

Lemma split_not_nil sep s : split sep s <> [].
Proof.
  destruct s as [| c s]; simpl; [discriminate |].
  destruct (Ascii.eqb c sep); [discriminate |].
  destruct (split sep s); discriminate.
Qed.

Lemma join_split s : join_slash (split slash s) = s.
Proof.
  induction s as [| c s IH]; [reflexivity |].
  simpl. destruct (Ascii.eqb_spec c slash) as [-> | Hc].
  - destruct (split slash s) as [| seg rest] eqn:E.
    + now destruct (split_not_nil slash s).
    + cbn [join_slash]. simpl. now rewrite <- IH.
  - destruct (split slash s) as [| seg rest] eqn:E.
    + now destruct (split_not_nil slash s).
    + rewrite <- IH. destruct rest; reflexivity.
Qed.

Lemma split_segments_without_slash s :
  Forall (fun seg => contains_slash seg = false) (split slash s).
Proof.
  induction s as [| c s IH]; simpl.
  - repeat constructor.
  - destruct (Ascii.eqb c slash) eqn:Hc.
    + constructor; [reflexivity | exact IH].
    + destruct (split slash s) as [| seg rest].
      * repeat constructor. simpl. now rewrite Hc.
      * inversion IH; subst. constructor; [| assumption].
        simpl. rewrite Hc. assumption.
Qed.

Lemma replace_trailing_slash_present s :
  replace_trailing_slash (s +:+ "/") = s.
Proof.
  induction s as [| c s IH]; [reflexivity |].
  change (String c s +:+ "/") with (String c (s +:+ "/")).
  destruct (s +:+ "/") as [| a s0] eqn:E.
  - destruct s; discriminate.
  - change (replace_trailing_slash (String c (String a s0)))
      with (String c (replace_trailing_slash (String a s0))).
    now rewrite IH.
Qed.

Lemma replace_trailing_slash_absent s :
  (forall s', s <> s' +:+ "/") -> replace_trailing_slash s = s.
Proof.
  induction s as [| c s IH]; intros Hno; [reflexivity |].
  cbn [replace_trailing_slash]. destruct s as [| c' s].
  - destruct (Ascii.eqb_spec c slash) as [-> | _]; [| reflexivity].
    now destruct (Hno EmptyString).
  - rewrite IH; [reflexivity |].
    intros s' Hs'. apply (Hno (String c s')). simpl. now rewrite Hs'.
Qed.

(** The resource name always exists: it is the slash-free text after the
    last "/" of the url less one trailing "/". *)
Lemma resourceName_is_last_segment url :
  exists name dirs,
    resourceName url = Some name
    /\ replace_trailing_slash (String_of url) = join_slash (dirs ++ [name])
    /\ contains_slash name = false.
Proof.
  unfold resourceName, pop.
  set (s := replace_trailing_slash (String_of url)).
  pose proof (join_split s) as Hj.
  pose proof (split_segments_without_slash s) as Hf.
  destruct (exists_last (split_not_nil slash s)) as (dirs & name & E).
  rewrite E in *. exists name, dirs. rewrite last_snoc. repeat split.
  - now rewrite Hj.
  - apply Forall_app in Hf as [_ Hf]. now inversion Hf.
Qed.

Lemma probe_first_existing fs paths :
  probe fs paths =
  match first_existing fs paths with
  | Some p =>
      match readFileSync fs p with
      | Normal data => Normal (Some data)
      | Throw e => Throw e
      end
  | None => Normal None
  end.
Proof.
  unfold first_existing. induction paths as [| p paths IH]; [reflexivity |].
  simpl. destruct (existsSync fs p); [reflexivity | exact IH].
Qed.

Lemma first_existing_elem fs paths p :
  first_existing fs paths = Some p -> p ∈ paths /\ existsSync fs p = true.
Proof.
  unfold first_existing. intros Hf. apply find_some in Hf as [Hin Hex].
  split; [now apply list_elem_of_In | exact Hex].
Qed.

(** Every call is answered with a response built by the constructor
    around a [Buffer]. *)
Lemma fetch_answers dirname fs url :
  exists data, (fetch dirname fs url).1 = Fulfilled (new_ResponseMock (BufferBody data)).
Proof.
  unfold fetch, fetch_try.
  destruct (resourceName url) as [name |]; [| simpl; eauto].
  destruct (probe fs (distPaths dirname name)) as [[data |] | e]; simpl; eauto.
  destruct (endsWith name ".wasm"); simpl; eauto.
Qed.

(** Without a candidate that is a file, the body is the empty buffer. *)
Lemma fetch_unresolved dirname fs url name :
  resourceName url = Some name ->
  (forall p, p ∈ distPaths dirname name -> forall c, fs !! p <> Some (File c)) ->
  (fetch dirname fs url).1 = Fulfilled (new_ResponseMock (BufferBody (Buffer_from []))).
Proof.
  intros Hn Hnone. unfold fetch, fetch_try. rewrite Hn, probe_first_existing.
  destruct (first_existing fs (distPaths dirname name)) as [p |] eqn:Hf.
  - apply first_existing_elem in Hf as [Hin _].
    specialize (Hnone p Hin). unfold readFileSync.
    destruct (fs !! p) as [[c | | e] |]; try reflexivity.
    now destruct (Hnone c).
  - destruct (endsWith name ".wasm"); reflexivity.
Qed.

(** C4: for every url and file system, [fetch] fulfils (it never rejects)
    with a response on which [arrayBuffer()], [text()], [blob()] and
    [clone()] all answer; when none of the candidate paths for the
    requested name is a file, the body of that response is a buffer of
    length zero. *)
Theorem C4_fetch_never_rejects :
  forall (dirname : path) (fs : gmap path fs_entry) (url : fetch_input),
    exists r,
      (fetch dirname fs url).1 = Fulfilled r
      /\ arrayBuffer r = Fulfilled (body_bytes r)
      /\ (forall decode, text decode r = Fulfilled (decode (body_bytes r)))
      /\ (forall Blob_defined, exists b, blob Blob_defined r = Fulfilled b)
      /\ clone r = r
      /\ (forall name,
            resourceName url = Some name ->
            (forall p, p ∈ distPaths dirname name -> forall c, fs !! p <> Some (File c)) ->
            body r = BufferBody (Buffer_from [])
            /\ byteLength (Buffer_from []) = 0%nat
            /\ body_bytes r = []).
Proof.
  intros dirname fs url.
  destruct (fetch_answers dirname fs url) as [data Hr].
  exists (new_ResponseMock (BufferBody data)).
  split; [exact Hr |]. split; [apply arrayBuffer_bytes |].
  split; [reflexivity |]. split.
  { intros [|]; eexists; reflexivity. }
  split; [reflexivity |].
  intros name Hn Hnone.
  pose proof (fetch_unresolved dirname fs url name Hn Hnone) as Hu.
  rewrite Hr in Hu. injection Hu as ->. repeat split.
Qed.

Lemma C4_sample_missing_asset :
  exists r,
    (fetch Sample.server_dir Sample.installed (UrlString "fonts/optional.ttf")).1
    = Fulfilled r
    /\ body_bytes r = [].
Proof.
  destruct (C4_fetch_never_rejects Sample.server_dir Sample.installed
              (UrlString "fonts/optional.ttf")) as (r & Hr & _ & _ & _ & _ & Hempty).
  exists r. split; [exact Hr |].
  apply (Hempty "optional.ttf"); [reflexivity |].
  intros p Hp c. vm_compute in Hp.
  repeat (apply elem_of_cons in Hp as [-> | Hp]; [vm_compute; discriminate |]).
  now apply elem_of_nil in Hp.
Defined.

(** C10: for every url and file system, including names that resolve to
    nothing and files that cannot be read, the response [fetch] returns has
    [ok] true and [status] 200. *)
Theorem C10_fetch_response_always_ok_200 :
  forall (dirname : path) (fs : gmap path fs_entry) (url : fetch_input),
    exists r,
      (fetch dirname fs url).1 = Fulfilled r /\ ok r = true /\ status r = 200.
Proof.
  intros dirname fs url.
  destruct (fetch_answers dirname fs url) as [data Hr].
  exists (new_ResponseMock (BufferBody data)). repeat split. exact Hr.
Qed.

Lemma fetch_first_file dirname fs url name p content :
  resourceName url = Some name ->
  first_existing fs (distPaths dirname name) = Some p ->
  fs !! p = Some (File content) ->
  (fetch dirname fs url).1
  = Fulfilled (new_ResponseMock (BufferBody (Buffer_from content))).
Proof.
  intros Hn Hf Hp. unfold fetch, fetch_try.
  rewrite Hn, probe_first_existing, Hf. unfold readFileSync. now rewrite Hp.
Qed.

Lemma distPaths_ordinary dirname name :
  name <> EmptyString -> name <> "." -> name <> ".." ->
  distPaths dirname name =
  ([ removelast dirname ++ ["node_modules"; "openscad-playground"; "dist"; name];
    removelast dirname ++ ["node_modules"; "openscad-playground"; "dist"; "wasm"; name];
    removelast dirname ++ ["node_modules"; "browserfs"; "dist"; name] ])%list.
Proof.
  intros H0 H1 H2. unfold distPaths, path_join. cbn [fold_left].
  assert (Hj : forall p, join_segment p name = (p ++ [name])%list).
  { intros p. unfold join_segment.
    destruct (String.eqb_spec name EmptyString); [contradiction |].
    destruct (String.eqb_spec name "."); [contradiction |].
    destruct (String.eqb_spec name ".."); [contradiction | reflexivity]. }
  rewrite !Hj. unfold join_segment. simpl. now rewrite <- !app_assoc.
Qed.

(** C5, as stated, fails: with two trailing separators the name the code
    looks for is empty, not the final path segment.  The file
    [openscad.wasm] is installed where the first candidate directory has
    it, yet the response is empty. *)
Lemma C5_second_trailing_slash_is_kept :
  let url := UrlString "http://localhost/openscad.wasm//" in
  let wanted := ["srv"; "cad"; "node_modules"; "openscad-playground"; "dist";
                 "openscad.wasm"] in
  logical_name url = Some "openscad.wasm"
  /\ first_existing Sample.installed (distPaths Sample.server_dir "openscad.wasm")
     = Some wanted
  /\ Sample.installed !! wanted = Some (File Sample.wasm_magic)
  /\ resourceName url = Some EmptyString
  /\ (fetch Sample.server_dir Sample.installed url).1
     = Fulfilled (new_ResponseMock (BufferBody (Buffer_from []))).
Proof. vm_compute. repeat split; reflexivity. Qed.

(** C5, amended: the resolver removes one trailing "/" from the
    requested url (none when it does not end in "/") and takes as name the
    slash-free text after the last "/" of what remains.  For a name other
    than the empty one, "." and "..", the candidates are, in this order,
    the name inside [node_modules/openscad-playground/dist], inside its
    [wasm] subdirectory and inside [node_modules/browserfs/dist], all
    beside the shim's directory.  When the first candidate that exists is
    a file, the response carries exactly that file's bytes. *)
Theorem C5_one_trailing_slash_then_first_existing_file :
  forall (dirname : path) (fs : gmap path fs_entry) (url : fetch_input),
    exists name dirs,
      resourceName url = Some name
      /\ replace_trailing_slash (String_of url) = join_slash (dirs ++ [name])
      /\ contains_slash name = false
      /\ (forall s, String_of url = s +:+ "/" ->
            replace_trailing_slash (String_of url) = s)
      /\ ((forall s, String_of url <> s +:+ "/") ->
            replace_trailing_slash (String_of url) = String_of url)
      /\ (name <> EmptyString -> name <> "." -> name <> ".." ->
            distPaths dirname name =
            ([ removelast dirname ++ ["node_modules"; "openscad-playground"; "dist"; name];
              removelast dirname
                ++ ["node_modules"; "openscad-playground"; "dist"; "wasm"; name];
              removelast dirname ++ ["node_modules"; "browserfs"; "dist"; name] ])%list)
      /\ (forall p content,
            first_existing fs (distPaths dirname name) = Some p ->
            fs !! p = Some (File content) ->
            exists r, (fetch dirname fs url).1 = Fulfilled r
                      /\ body_bytes r = content).
Proof.
  intros dirname fs url.
  destruct (resourceName_is_last_segment url) as (name & dirs & Hn & Hj & Hs).
  exists name, dirs. repeat split; try assumption.
  - intros s ->. apply replace_trailing_slash_present.
  - apply replace_trailing_slash_absent.
  - apply distPaths_ordinary.
  - intros p content Hf Hp.
    exists (new_ResponseMock (BufferBody (Buffer_from content))).
    split; [now apply (fetch_first_file _ _ _ name p) |].
    apply Buffer_bytes_from.
Qed.

Lemma C5_sample_kernel_asset :
  exists r,
    (fetch Sample.server_dir Sample.installed
           (UrlObject (new_URL "http://localhost/static/openscad.wasm/"))).1
    = Fulfilled r
    /\ body_bytes r = Sample.wasm_magic.
Proof.
  destruct (C5_one_trailing_slash_then_first_existing_file
              Sample.server_dir Sample.installed
              (UrlObject (new_URL "http://localhost/static/openscad.wasm/")))
    as (name & dirs & Hn & _ & _ & _ & _ & _ & Hfile).
  vm_compute in Hn. injection Hn as <-.
  apply (Hfile ["srv"; "cad"; "node_modules"; "openscad-playground"; "dist";
                "openscad.wasm"]); vm_compute; reflexivity.
Defined.

(** * Streaming instantiation *)

(** C9: for every response or promise of one, the replacement of
    [WebAssembly.instantiateStreaming] settles exactly as buffer-based
    instantiation of the response's complete bytes: it awaits the
    response, takes [arrayBuffer()], which is the response's bytes, and
    hands that buffer with the imports to [WebAssembly.instantiate]; a
    response promise that rejects or stays pending is passed on and the
    engine is not consulted. *)
Theorem C9_streaming_instantiation_uses_the_buffer :
  forall (imports_t instance_t : Type)
         (WebAssembly_instantiate : list byte -> imports_t -> promise instance_t)
         (responsePromise : maybe_promise ResponseMock) (imports : imports_t),
    (instantiateStreaming imports_t instance_t WebAssembly_instantiate
                          responsePromise imports).1
    = instantiate_from_complete_buffer imports_t instance_t WebAssembly_instantiate
                                       responsePromise imports
    /\ (forall response,
          Promise_resolve responsePromise = Fulfilled response ->
          arrayBuffer response = Fulfilled (body_bytes response)
          /\ (instantiateStreaming imports_t instance_t WebAssembly_instantiate
                                   responsePromise imports).1
             = WebAssembly_instantiate (body_bytes response) imports)
    /\ (forall e,
          Promise_resolve responsePromise = Rejected e ->
          (instantiateStreaming imports_t instance_t WebAssembly_instantiate
                                responsePromise imports).1 = Rejected e)
    /\ (Promise_resolve responsePromise = Forever ->
          (instantiateStreaming imports_t instance_t WebAssembly_instantiate
                                responsePromise imports).1 = Forever).
Proof.
  intros imports_t instance_t W rp imports.
  unfold instantiateStreaming, instantiate_from_complete_buffer, await.
  split; [| split; [| split]].
  - destruct (Promise_resolve rp) as [response | e |]; try reflexivity.
    now rewrite arrayBuffer_bytes.
  - intros response ->. split; [apply arrayBuffer_bytes |].
    now rewrite arrayBuffer_bytes.
  - intros e ->. reflexivity.
  - intros ->. reflexivity.
Qed.

Lemma C9_sample_pooled_buffer :
  (instantiateStreaming unit nat (fun bytes _ => Fulfilled (length bytes))
     (Promised (Fulfilled (new_ResponseMock
        (BufferBody {| buffer := ([x01; x02] ++ Sample.wasm_magic ++ [x03])%list;
                       byteOffset := 2; byteLength := 4 |}))))
     tt).1
  = Fulfilled 4%nat.
Proof.
  destruct (C9_streaming_instantiation_uses_the_buffer unit nat
              (fun bytes _ => Fulfilled (length bytes))
              (Promised (Fulfilled (new_ResponseMock
                 (BufferBody {| buffer := ([x01; x02] ++ Sample.wasm_magic ++ [x03])%list;
                                byteOffset := 2; byteLength := 4 |}))))
              tt) as (_ & Hdone & _).
  destruct (Hdone _ eq_refl) as [_ Heq]. exact Heq.
Defined.

(** * Further properties of the coordinator and the render endpoint *)

Import Quiet.

Lemma step_keeps_worker_and_request st ev :
  spawned (step st ev) = spawned st /\ posted (step st ev) = posted st.
Proof.
  destruct st as [s t n sp po].
  destruct ev as [msg | | err | code]; simpl.
  - destruct msg as [| [[[[|[p out] rest]|]]|] [err|]]; unfold_callback; simpl;
      try (destruct (String.eqb err EmptyString); unfold_callback; simpl);
      destruct t, s; simpl; split; reflexivity.
  - destruct t, s; simpl; split; reflexivity.
  - unfold_callback. destruct s; simpl; split; reflexivity.
  - unfold_callback. destruct (code =? 0), s; simpl; split; reflexivity.
Qed.

Lemma run_keeps_worker_and_request evs : forall st,
  spawned (run st evs) = spawned st /\ posted (run st evs) = posted st.
Proof.
  induction evs as [| ev evs IH]; intros st; [split; reflexivity |].
  simpl. destruct (IH (step st ev)) as [-> ->]. apply step_keeps_worker_and_request.
Qed.

Lemma step_silent st ev : silent ev = true -> step st ev = st.
Proof.
  destruct ev as [msg | | err | code]; simpl; try discriminate.
  - intros Hs. apply (ignored_message st msg). now destruct (acts_on msg).
  - intros Hc. unfold on_exit. now rewrite Hc.
Qed.

Lemma run_silent evs : forall st, forallb silent evs = true -> run st evs = st.
Proof.
  induction evs as [| ev evs IH]; intros st Hs; [reflexivity |].
  simpl in *. apply andb_true_iff in Hs as [Hev Hrest].
  rewrite step_silent by assumption. now apply IH.
Qed.

Lemma path_to_string_snoc (p : path) (seg : string) :
  path_to_string (p ++ [seg]) = path_to_string p +:+ "/" +:+ seg.
Proof. unfold path_to_string. now rewrite fold_left_app. Qed.

(** X1: whatever the worker, the timer and the event loop deliver, a job
    that has started owns exactly one worker and has posted exactly one
    request to it: the script under the name input.scad, the arguments
    -o output.stl input.scad, and output.stl as the file to return. *)
Theorem one_worker_and_one_request_per_job :
  forall (h : host) (scadCode : json) (evs : list event),
    starts h ->
    spawned (run (renderLocally h scadCode) evs) = 1%nat
    /\ posted (run (renderLocally h scadCode) evs)
       = [ {| inputs := [("input.scad", scadCode)];
              args := ["-o"; "output.stl"; "input.scad"];
              outputPaths := ["output.stl"] |} ].
Proof.
  intros h scadCode evs [Hex Hw].
  destruct (run_keeps_worker_and_request evs (renderLocally h scadCode)) as [-> ->].
  unfold renderLocally. rewrite Hex, Hw. split; reflexivity.
Qed.

Lemma one_worker_and_one_request_sample :
  spawned (run (renderLocally Sample.server Sample.cube)
               [EvMessage Sample.stl_message; EvExit 1; EvTimeout]) = 1%nat.
Proof.
  apply (one_worker_and_one_request_per_job Sample.server Sample.cube
           [EvMessage Sample.stl_message; EvExit 1; EvTimeout]).
  split; vm_compute; reflexivity.
Defined.

(** X2: when the wrapper script is not on disk, or creating the worker
    throws, the job fails before anything is started: no worker, no timer,
    no request, and no later event changes the outcome.  For the missing
    wrapper the error names the file beside the server directory.  The
    endpoint answers such a request with status 500. *)
Theorem job_that_cannot_start_fails_at_once :
  forall (h : host) (scadCode : json) (evs : list event),
    let st := renderLocally h scadCode in
    (existsSync (fs h) (dirname h ++ ["openscad-worker-wrapper.cjs"]) = false ->
       settled (run st evs)
       = Failed (Error ("openscad-worker-wrapper not found at "
                        +:+ path_to_string (dirname h)
                        +:+ "/openscad-worker-wrapper.cjs"))
       /\ spawned (run st evs) = 0%nat /\ posted (run st evs) = [] /\ timer st = NoTimer)
    /\ (forall e,
          existsSync (fs h) (dirname h ++ ["openscad-worker-wrapper.cjs"]) = true ->
          Worker_throws h = Some e ->
          settled (run st evs) = Failed e
          /\ spawned (run st evs) = 0%nat /\ posted (run st evs) = [] /\ timer st = NoTimer)
    /\ (forall body,
          ~ starts h ->
          body !! "scadCode" = Some scadCode ->
          truthy (Some scadCode) = true ->
          response (api_render h body evs) = Some server_error
          /\ spawn_count (api_render h body evs) = 0%nat).
Proof.
  intros h scadCode evs st.
  assert (Hjoin : path_join (dirname h) ["openscad-worker-wrapper.cjs"]
                  = (dirname h ++ ["openscad-worker-wrapper.cjs"])%list) by reflexivity.
  assert (Hnot : forall e, st = not_started e ->
            settled (run st evs) = Failed e
            /\ spawned (run st evs) = 0%nat /\ posted (run st evs) = []
            /\ timer st = NoTimer).
  { intros e He.
    destruct (run_keeps_worker_and_request evs st) as [-> ->].
    rewrite run_after_settlement; rewrite He; simpl; repeat split; discriminate. }
  split; [| split].
  - intros Hex. apply Hnot. subst st. unfold renderLocally.
    rewrite Hjoin, Hex. simpl. unfold wrapper_not_found.
    now rewrite path_to_string_snoc.
  - intros e Hex Hw. apply Hnot. subst st. unfold renderLocally.
    now rewrite Hjoin, Hex, Hw.
  - intros body Hno Hb Ht.
    assert (Hst : exists e, st = not_started e).
    { subst st. unfold renderLocally. rewrite Hjoin.
      destruct (existsSync (fs h) _) eqn:Hex; simpl; [| eauto].
      destruct (Worker_throws h) as [e |] eqn:Hw; [eauto |].
      destruct Hno. split; [now rewrite Hjoin | exact Hw]. }
    destruct Hst as [e He]. destruct (Hnot e He) as (Hset & Hsp & _ & _).
    unfold api_render, spawn_count. rewrite Hb, Ht. simpl.
    fold st. rewrite Hset. simpl. split; [reflexivity | exact Hsp].
Qed.

Lemma job_that_cannot_start_sample :
  settled (run (renderLocally
                  {| dirname := ["opt"; "cad"]; fs := ∅; env := ∅;
                     Worker_throws := None |} Sample.cube)
               [EvMessage Sample.stl_message])
  = Failed (Error "openscad-worker-wrapper not found at /opt/cad/openscad-worker-wrapper.cjs").
Proof.
  destruct (job_that_cannot_start_fails_at_once
              {| dirname := ["opt"; "cad"]; fs := ∅; env := ∅; Worker_throws := None |}
              Sample.cube [EvMessage Sample.stl_message]) as (Hmissing & _).
  destruct Hmissing as (Hset & _); [vm_compute; reflexivity |].
  exact Hset.
Defined.

(** X3: messages that carry neither a result nor a non-empty error, and a
    worker exit with code 0, leave a job exactly as it was.  A started job
    that has only seen such events is therefore still pending, and it ends
    when the timer expires: rejected as a timeout, with the worker
    terminated once. *)
Theorem silent_events_leave_the_job_to_the_timer :
  (forall (st : job) (evs : list event),
     forallb silent evs = true -> run st evs = st)
  /\ (forall (h : host) (scadCode : json) (evs : list event),
        starts h ->
        forallb silent evs = true ->
        settled (run (renderLocally h scadCode) evs) = Pending
        /\ settled (run (renderLocally h scadCode) (evs ++ [EvTimeout]))
           = Failed (Error "OpenSCAD WASM worker timed out")
        /\ terminate_calls (run (renderLocally h scadCode) (evs ++ [EvTimeout])) = 1%nat).
Proof.
  split; [intros st evs; apply run_silent |].
  intros h scadCode evs Hs Hq.
  rewrite run_app, !(run_silent evs) by assumption.
  destruct Hs as [Hex Hw]. unfold renderLocally. rewrite Hex, Hw.
  repeat split.
Qed.

Lemma silent_events_sample :
  settled (run (renderLocally Sample.server Sample.cube)
               ([EvMessage MsgFalsy; EvExit 0; EvMessage Sample.empty_error_message]
                ++ [EvTimeout]))
  = Failed (Error "OpenSCAD WASM worker timed out").
Proof.
  destruct silent_events_leave_the_job_to_the_timer as [_ Hjob].
  destruct (Hjob Sample.server Sample.cube
              [EvMessage MsgFalsy; EvExit 0; EvMessage Sample.empty_error_message])
    as (_ & Hto & _).
  - split; vm_compute; reflexivity.
  - reflexivity.
  - exact Hto.
Defined.

(** X4: end to end, for a request with a usable [scadCode] on a host
    where the worker starts: if the first event that is not silent is a
    result message whose first output holds the bytes [out], the endpoint
    answers with status 200, [stlData] being the base64 text of [out] and
    [scadCode] the value that was sent in, whatever is delivered
    afterwards; nothing is written to the error console. *)
Theorem render_request_answered_with_the_first_output :
  forall (h : host) (body : gmap string json) (scadCode : json)
         (before later : list event)
         (file : string) (out : list byte) (more : list (string * list byte)),
    starts h ->
    body !! "scadCode" = Some scadCode ->
    truthy (Some scadCode) = true ->
    forallb silent before = true ->
    let answer := api_render h body
                    (before ++ [EvMessage (success_message file out more)] ++ later) in
    response answer
    = Some {| status_code := 200;
              sent := [("stlData", JString (base64 out)); ("scadCode", scadCode)] |}
    /\ console_error answer = []
    /\ spawn_count answer = 1%nat.
Proof.
  intros h body scadCode before later file out more Hs Hb Ht Hq answer.
  assert (Hset : settled (run (renderLocally h scadCode)
                   (before ++ [EvMessage (success_message file out more)] ++ later))
                 = Resolved (base64 out)).
  { rewrite run_app, (run_silent before) by assumption.
    rewrite run_app.
    change (run (renderLocally h scadCode) [EvMessage (success_message file out more)])
      with (on_message (success_message file out more) (renderLocally h scadCode)).
    rewrite run_after_settlement;
      rewrite settled_on_message, (pending_start h scadCode Hs);
      [reflexivity | discriminate]. }
  assert (Hsp : spawned (run (renderLocally h scadCode)
                  (before ++ [EvMessage (success_message file out more)] ++ later))
                = 1%nat).
  { destruct (run_keeps_worker_and_request
                (before ++ [EvMessage (success_message file out more)] ++ later)
                (renderLocally h scadCode)) as [-> _].
    destruct Hs as [Hex Hw]. unfold renderLocally. now rewrite Hex, Hw. }
  subst answer. unfold api_render, spawn_count. rewrite Hb, Ht.
  cbn [negb]. cbv zeta.
  destruct (run (renderLocally h scadCode)
              (before ++ [EvMessage (success_message file out more)] ++ later))
    as [s t n sp po].
  simpl in Hset, Hsp. subst s sp. repeat split.
Qed.

Lemma render_request_sample :
  response (api_render Sample.server {[ "scadCode" := Sample.cube ]}
              ([EvMessage MsgFalsy]
               ++ [EvMessage (success_message "output.stl" [x73; x6f; x6c] [])]
               ++ [EvTimeout]))
  = Some {| status_code := 200;
            sent := [("stlData", JString "c29s"); ("scadCode", Sample.cube)] |}.
Proof.
  assert (Hs : starts Sample.server) by (split; vm_compute; reflexivity).
  assert (Hb : ({[ "scadCode" := Sample.cube ]} : gmap string json) !! "scadCode"
               = Some Sample.cube) by (vm_compute; reflexivity).
  exact (proj1 (render_request_answered_with_the_first_output
                  Sample.server {[ "scadCode" := Sample.cube ]} Sample.cube
                  [EvMessage MsgFalsy] [EvTimeout] "output.stl" [x73; x6f; x6c] []
                  Hs Hb eq_refl eq_refl)).
Defined.

(** * Further properties of the shim *)

Import WorkerScope.

Lemma split_app_slash (a b : string) :
  split slash (a +:+ String slash b) = (split slash a ++ split slash b)%list.
Proof.
  induction a as [| c a IH]; [reflexivity |].
  change (String c a +:+ String slash b) with (String c (a +:+ String slash b)).
  cbn [split]. rewrite IH. destruct (Ascii.eqb c slash); [reflexivity |].
  destruct (split slash a) as [| seg rest] eqn:E; [| reflexivity].
  now destruct (split_not_nil slash a).
Qed.

Lemma split_without_slash (name : string) :
  contains_slash name = false -> split slash name = [name].
Proof.
  induction name as [| c name IH]; [reflexivity |].
  simpl. intros Hno. apply orb_false_iff in Hno as [Hc Hrest].
  rewrite Hc, IH by assumption. reflexivity.
Qed.

Lemma replace_trailing_slash_slash_free (name : string) :
  contains_slash name = false -> replace_trailing_slash name = name.
Proof.
  induction name as [| c name IH]; [reflexivity |].
  simpl contains_slash. intros Hno. apply orb_false_iff in Hno as [Hc Hrest].
  cbn [replace_trailing_slash]. destruct name as [| c' name].
  - now rewrite Hc.
  - now rewrite IH.
Qed.

Lemma replace_trailing_slash_after_name (s name : string) :
  name <> EmptyString -> contains_slash name = false ->
  replace_trailing_slash (s +:+ name) = s +:+ name.
Proof.
  intros Hne Hno. induction s as [| c s IH].
  - now apply replace_trailing_slash_slash_free.
  - change (String c s +:+ name) with (String c (s +:+ name)).
    cbn [replace_trailing_slash].
    destruct (s +:+ name) as [| c' rest] eqn:E.
    + destruct s, name; try discriminate. now destruct Hne.
    + now rewrite IH.
Qed.

Lemma string_app_assoc (a b c : string) : (a +:+ b) +:+ c = a +:+ (b +:+ c).
Proof.
  induction a as [| x a IH]; [reflexivity |].
  change (String x ((a +:+ b) +:+ c) = String x (a +:+ (b +:+ c))).
  now rewrite IH.
Qed.

Lemma resourceName_after_last_slash (pre name : string) :
  name <> EmptyString -> contains_slash name = false ->
  resourceName (UrlString (pre +:+ String slash name)) = Some name.
Proof.
  intros Hne Hno. unfold resourceName, pop. cbn [String_of].
  assert (E : pre +:+ String slash name = (pre +:+ "/") +:+ name)
    by (now rewrite string_app_assoc).
  rewrite E, (replace_trailing_slash_after_name (pre +:+ "/") name Hne Hno), <- E.
  rewrite split_app_slash, (split_without_slash name Hno).
  apply last_snoc.
Qed.

Lemma resourceName_bare (name : string) :
  name <> EmptyString -> contains_slash name = false ->
  resourceName (UrlString name) = Some name.
Proof.
  intros Hne Hno. unfold resourceName, pop. cbn [String_of].
  rewrite (replace_trailing_slash_slash_free name Hno).
  now rewrite split_without_slash.
Qed.

Lemma resourceName_one_trailing_slash (s : string) :
  resourceName (UrlString (s +:+ "/")) = pop (split slash s).
Proof.
  unfold resourceName. cbn [String_of]. now rewrite replace_trailing_slash_present.
Qed.

Lemma fetch_by_name dirname fs url url' :
  resourceName url = resourceName url' ->
  (fetch dirname fs url).1 = (fetch dirname fs url').1.
Proof.
  intros Hn. unfold fetch, fetch_try. rewrite Hn.
  destruct (resourceName url') as [name |]; [| reflexivity].
  destruct (probe fs (distPaths dirname name)) as [[data |] | e]; try reflexivity.
  destruct (endsWith name ".wasm"); reflexivity.
Qed.

(** X5: only the text after the last "/" of a url matters to [fetch].
    For a non-empty name without "/", every url that ends in "/" and the
    name, with or without one more "/" behind it, names that resource and
    is answered exactly like the bare name: host, directories and anything
    else before the last "/" are ignored. *)
Theorem fetch_ignores_everything_before_the_last_slash :
  forall (dirname : path) (fs : gmap path fs_entry) (pre name : string),
    name <> EmptyString ->
    contains_slash name = false ->
    resourceName (UrlString (pre +:+ "/" +:+ name)) = Some name
    /\ resourceName (UrlString ((pre +:+ "/" +:+ name) +:+ "/")) = Some name
    /\ (fetch dirname fs (UrlString (pre +:+ "/" +:+ name))).1
       = (fetch dirname fs (UrlString name)).1
    /\ (fetch dirname fs (UrlString ((pre +:+ "/" +:+ name) +:+ "/"))).1
       = (fetch dirname fs (UrlString name)).1.
Proof.
  intros dirname fs pre name Hne Hno.
  change (pre +:+ "/" +:+ name) with (pre +:+ String slash name).
  pose proof (resourceName_after_last_slash pre name Hne Hno) as H1.
  pose proof (resourceName_bare name Hne Hno) as H0.
  assert (H2 : resourceName (UrlString ((pre +:+ String slash name) +:+ "/")) = Some name).
  { rewrite resourceName_one_trailing_slash.
    rewrite split_app_slash, (split_without_slash name Hno). apply last_snoc. }
  repeat split; try assumption; apply fetch_by_name; congruence.
Qed.

Lemma fetch_ignores_prefix_sample :
  (fetch Sample.server_dir Sample.installed
         (UrlString ("https://cdn.example/v1/wasm" +:+ "/" +:+ "openscad.wasm"))).1
  = (fetch Sample.server_dir Sample.installed (UrlString "openscad.wasm")).1.
Proof.
  destruct (fetch_ignores_everything_before_the_last_slash
              Sample.server_dir Sample.installed
              "https://cdn.example/v1/wasm" "openscad.wasm")
    as (_ & _ & Hsame & _).
  - discriminate.
  - reflexivity.
  - exact Hsame.
Defined.



(** The replacement [URL] accepts exactly strings and keeps the text
    as it is: the base is ignored, [href], [pathname] and [toString()] are
    the text itself, and [fetch] on the object does what it does on the
    text.  Any other first argument throws 'Invalid URL'. *)
Theorem URL_object_is_its_text :
  forall (s : string) (base : option json) (dirname : path) (fs : gmap path fs_entry),
    (exists u,
       construct_URL (Some (JString s)) base = Normal u
       /\ href u = s /\ pathname u = s /\ String_of (UrlObject u) = s
       /\ fetch dirname fs (UrlObject u) = fetch dirname fs (UrlString s))
    /\ (forall url, (forall t, url <> Some (JString t)) ->
          construct_URL url base = Throw (Error "Invalid URL")).
Proof.
  intros s base dirname fs. split.
  - exists (new_URL s). repeat split.
  - intros url Hnot. destruct url as [[| b | z | t | l | l] |]; try reflexivity.
    now destruct (Hnot t).
Qed.

Lemma URL_object_sample :
  construct_URL (Some (JNumber 7)) (Some (JString "http://localhost/"))
  = Throw (Error "Invalid URL").
Proof.
  destruct (URL_object_is_its_text EmptyString (Some (JString "http://localhost/"))
              Sample.server_dir Sample.installed) as [_ Hthrow].
  apply Hthrow. intros t. discriminate.
Defined.

Lemma take_drop_middle_bytes (pre bs post : list byte) :
  take (length bs) (drop (length pre) (pre ++ bs ++ post)) = bs.
Proof.
  rewrite drop_app_length. apply take_app_length.
Qed.

(** X7: [arrayBuffer()] hands out the bytes of the [Buffer] and nothing
    else of the memory pool the buffer lives in: bytes stored at any
    offset of a pool come back exactly, also through [clone()] and, once
    decoded, through [text()]; and for any buffer the result is never
    longer than its [byteLength]. *)
Theorem arrayBuffer_is_the_view_not_the_pool :
  forall (pre bs post : list byte) (decode : list byte -> string),
    let pooled := {| buffer := (pre ++ bs ++ post)%list;
                     byteOffset := length pre; byteLength := length bs |} in
    arrayBuffer (new_ResponseMock (BufferBody pooled)) = Fulfilled bs
    /\ arrayBuffer (clone (new_ResponseMock (BufferBody pooled))) = Fulfilled bs
    /\ text decode (new_ResponseMock (BufferBody pooled)) = Fulfilled (decode bs)
    /\ (forall b : Buffer,
          exists bytes,
            arrayBuffer (new_ResponseMock (BufferBody b)) = Fulfilled bytes
            /\ (length bytes <= byteLength b)%nat).
Proof.
  intros pre bs post decode pooled.
  assert (Hv : Buffer_bytes pooled = bs) by apply take_drop_middle_bytes.
  repeat split.
  - unfold arrayBuffer. cbn [body new_ResponseMock]. now rewrite slice_is_view, Hv.
  - unfold arrayBuffer, clone. cbn [body new_ResponseMock].
    now rewrite slice_is_view, Hv.
  - unfold text. cbn [body new_ResponseMock]. now rewrite Hv.
  - intros b. exists (Buffer_bytes b). split.
    + unfold arrayBuffer. cbn [body new_ResponseMock]. now rewrite slice_is_view.
    + unfold Buffer_bytes. rewrite length_take. lia.
Qed.

(** * The worker scope *)

Lemma forEach_calls {A} (throws : handler -> message_event A -> option js_error)
    (ev : message_event A) (hs : list handler) :
  exists called, called `prefix_of` hs
                 /\ (forEach throws hs ev).1 = map (fun h => (h, ev)) called.
Proof.
  induction hs as [| h hs IH]; simpl.
  - exists []. split; [apply prefix_nil | reflexivity].
  - destruct (throws h ev) as [e |].
    + exists [h]. split; [apply (prefix_cons h [] hs), prefix_nil | reflexivity].
    + destruct IH as (called & Hp & Hc).
      destruct (forEach throws hs ev) as [calls how]. simpl in *.
      exists (h :: called). split; [now apply prefix_cons | now rewrite Hc].
Qed.

Lemma forEach_all_return {A} (throws : handler -> message_event A -> option js_error)
    (ev : message_event A) (hs : list handler) :
  (forall h, h ∈ hs -> throws h ev = None) ->
  forEach throws hs ev = (map (fun h => (h, ev)) hs, Normal tt).
Proof.
  induction hs as [| h hs IH]; intros Hall; [reflexivity |]. simpl.
  rewrite (Hall h) by apply list_elem_of_here.
  rewrite IH; [reflexivity |]. intros h' Hin. apply Hall. now apply list_elem_of_further.
Qed.

Lemma forEach_first_throw {A} (throws : handler -> message_event A -> option js_error)
    (ev : message_event A) (before : list handler) (h : handler) (after : list handler)
    (e : js_error) :
  (forall h', h' ∈ before -> throws h' ev = None) ->
  throws h ev = Some e ->
  forEach throws (before ++ h :: after) ev
  = (map (fun h' => (h', ev)) (before ++ [h]), Throw e).
Proof.
  induction before as [| b before IH]; intros Hall He; simpl.
  - now rewrite He.
  - rewrite (Hall b) by apply list_elem_of_here.
    rewrite IH; [reflexivity | | exact He].
    intros h' Hin. apply Hall. now apply list_elem_of_further.
Qed.

(** X8: registering appends, without looking for duplicates, and removing
    drops every registration of that handler for that event: after
    [addEventListener] the listeners of the event are the earlier ones
    followed by the handler; after [removeEventListener] they are the
    earlier ones without any occurrence of the handler, in the same order;
    the listeners of other events are untouched by both.  So a handler
    that was removed is not called for any later message.  This holds for
    every event name that is not a property every object inherits; for
    those, with nothing registered, both calls throw. *)
Theorem listeners_are_appended_and_removed_by_identity :
  forall (event : string) (h : handler) (eventListeners : gmap string (list handler)),
    (inherited event = false ->
       (exists added,
          addEventListener event h eventListeners = Normal added
          /\ added !! event = Some (default [] (eventListeners !! event) ++ [h])%list
          /\ forall other, other <> event -> added !! other = eventListeners !! other)
       /\ (exists removed,
             removeEventListener event h eventListeners = Normal removed
             /\ removed !! event
                = (filter (fun h' => h' <> h)) <$> (eventListeners !! event)
             /\ (forall other, other <> event ->
                   removed !! other = eventListeners !! other)
             /\ (event = "message" ->
                   forall (A : Type) throws (message : A) call,
                     call ∈ (on_parent_message throws removed message).1 ->
                     call.1 <> h)))
    /\ (inherited event = true -> eventListeners !! event = None ->
          addEventListener event h eventListeners = Throw push_is_not_a_function
          /\ removeEventListener event h eventListeners
             = Throw filter_is_not_a_function).
Proof.
  intros event h reg. split.
  - intros Hown. split.
    + unfold addEventListener. rewrite Hown.
      destruct (reg !! event) as [hs |] eqn:E; eexists; (split; [reflexivity |]);
        (split; [apply lookup_insert_eq | intros other Hne; now apply lookup_insert_ne]).
    + unfold removeEventListener. rewrite Hown.
      destruct (reg !! event) as [hs |] eqn:E; eexists; (split; [reflexivity |]).
      * split; [apply lookup_insert_eq |].
        split; [intros other Hne; now apply lookup_insert_ne |].
        intros -> A throws message call Hcall.
        unfold on_parent_message in Hcall. rewrite lookup_insert_eq in Hcall.
        destruct (forEach_calls throws {| data := message |}
                    (filter (fun h' => h' <> h) hs)) as (called & Hp & Hc).
        rewrite Hc in Hcall. apply list_elem_of_fmap in Hcall as (h' & -> & Hin).
        simpl. destruct Hp as [rest Hp].
        assert (Hf : h' ∈ filter (fun h' => h' <> h) hs).
        { rewrite Hp. apply elem_of_app. now left. }
        now apply list_elem_of_filter in Hf as [Hne _].
      * split; [now rewrite E |]. split; [reflexivity |].
        intros -> A throws message call Hcall.
        unfold on_parent_message in Hcall. rewrite E in Hcall.
        simpl in Hcall. now apply elem_of_nil in Hcall.
  - intros Hin Hnone. unfold addEventListener, removeEventListener.
    now rewrite Hnone, Hin.
Qed.

Lemma listeners_sample :
  exists removed,
    removeEventListener "message" 2%nat {[ "message" := [1; 2; 3; 2]%nat ]}
    = Normal removed
    /\ removed !! "message" = Some [1; 3]%nat.
Proof.
  destruct (listeners_are_appended_and_removed_by_identity
              "message" 2%nat {[ "message" := [1; 2; 3; 2]%nat ]}) as [Hown _].
  destruct (Hown eq_refl) as (_ & removed & Hr & Hl & _).
  exists removed. split; [exact Hr |]. rewrite Hl. vm_compute. reflexivity.
Defined.

(** X9: a message from the parent port is handed, wrapped as
    [{ data: message }], to the listeners registered for 'message' and to
    no others, once per registration and in the order of registration.  If
    a listener throws, nothing catches it: the listeners registered after
    it are not called for that message and the error leaves the callback.
    With no 'message' listener nothing is called. *)
Theorem parent_messages_reach_the_message_listeners_in_order :
  forall (A : Type) (throws : handler -> message_event A -> option js_error)
         (eventListeners : gmap string (list handler)) (message : A),
    (forall hs,
       eventListeners !! "message" = Some hs ->
       (forall h, h ∈ hs -> throws h {| data := message |} = None) ->
       on_parent_message throws eventListeners message
       = (map (fun h => (h, {| data := message |})) hs, Normal tt))
    /\ (forall before h after e,
          eventListeners !! "message" = Some (before ++ h :: after)%list ->
          (forall h', h' ∈ before -> throws h' {| data := message |} = None) ->
          throws h {| data := message |} = Some e ->
          on_parent_message throws eventListeners message
          = (map (fun h' => (h', {| data := message |})) (before ++ [h])%list, Throw e))
    /\ (eventListeners !! "message" = None ->
          on_parent_message throws eventListeners message = ([], Normal tt)).
Proof.
  intros A throws reg message. unfold on_parent_message. split; [| split].
  - intros hs -> Hall. now apply forEach_all_return.
  - intros before h after e -> Hall He. now apply forEach_first_throw.
  - intros ->. reflexivity.
Qed.

Lemma parent_messages_sample :
  on_parent_message (fun h _ => if (h =? 2)%nat then Some (Error "boom") else None)
                    {[ "message" := [1; 1; 2; 3]%nat; "error" := [9]%nat ]} "job"
  = ([(1%nat, {| data := "job" |}); (1%nat, {| data := "job" |});
      (2%nat, {| data := "job" |})], Throw (Error "boom")).
Proof.
  destruct (parent_messages_reach_the_message_listeners_in_order string
              (fun h _ => if (h =? 2)%nat then Some (Error "boom") else None)
              {[ "message" := [1; 1; 2; 3]%nat; "error" := [9]%nat ]} "job")
    as (_ & Hthrow & _).
  apply (Hthrow [1; 1]%nat 2%nat [3]%nat (Error "boom")).
  - vm_compute. reflexivity.
  - intros h' Hin. apply elem_of_cons in Hin as [-> | Hin]; [reflexivity |].
    apply elem_of_cons in Hin as [-> | Hin]; [reflexivity |].
    now apply elem_of_nil in Hin.
  - reflexivity.
Defined.

(** * The code block of a chat answer *)

Lemma string_length_app (a b : string) :
  String.length (a +:+ b) = (String.length a + String.length b)%nat.
Proof.
  induction a as [| c a IH]; [reflexivity |].
  change (String c a +:+ b) with (String c (a +:+ b)). simpl. now rewrite IH.
Qed.

Lemma prefix_split (pat s : string) :
  String.prefix pat s = true -> s = pat +:+ Chat.skip (String.length pat) s.
Proof.
  revert s. induction pat as [| a pat IH]; intros s Hp; [reflexivity |].
  destruct s as [| b s]; [discriminate |]. simpl in Hp.
  destruct (ascii_dec a b) as [-> | _]; [| discriminate].
  change (String b pat +:+ Chat.skip (String.length (String b pat)) (String b s))
    with (String b (pat +:+ Chat.skip (String.length pat) s)).
  now rewrite <- IH.
Qed.

Lemma prefix_of_app (pat rest : string) : String.prefix pat (pat +:+ rest) = true.
Proof.
  induction pat as [| a pat IH]; [now destruct rest |].
  change (String a pat +:+ rest) with (String a (pat +:+ rest)). simpl.
  destruct (ascii_dec a a); [exact IH | contradiction].
Qed.

Lemma skip_app (pat rest : string) : Chat.skip (String.length pat) (pat +:+ rest) = rest.
Proof.
  induction pat as [| a pat IH]; [now destruct rest |]. exact IH.
Qed.

Lemma prefix_head_mismatch (a b : ascii) (pat s : string) :
  a <> b -> String.prefix (String a pat) (String b s) = false.
Proof.
  intros Hne.
  change (String.prefix (String a pat) (String b s))
    with (match ascii_dec a b with
          | left _ => String.prefix pat s
          | right _ => false
          end).
  destruct (ascii_dec a b); [contradiction | reflexivity].
Qed.

Lemma prefix_head_match (a : ascii) (pat s : string) :
  String.prefix (String a pat) (String a s) = String.prefix pat s.
Proof.
  change (String.prefix (String a pat) (String a s))
    with (match ascii_dec a a with
          | left _ => String.prefix pat s
          | right _ => false
          end).
  destruct (ascii_dec a a); [reflexivity | contradiction].
Qed.

Lemma not_backtick (c : ascii) :
  Ascii.eqb c Chat.backtick = false -> Chat.backtick <> c.
Proof. intros Hc <-. now rewrite Ascii.eqb_refl in Hc. Qed.

Lemma after_first_found (pat s rest : string) :
  Chat.after_first pat s = Some rest -> exists pre, s = pre +:+ pat +:+ rest.
Proof.
  induction s as [| c s IH]; cbn [Chat.after_first]; intros Hf.
  - destruct (String.prefix pat EmptyString) eqn:Hp; [| discriminate].
    injection Hf as <-. exists EmptyString. now apply prefix_split.
  - destruct (String.prefix pat (String c s)) eqn:Hp.
    + injection Hf as <-. exists EmptyString. now apply prefix_split.
    + destruct (IH Hf) as [pre ->]. now exists (String c pre).
Qed.

Lemma before_first_found (pat s found : string) :
  Chat.before_first pat s = Some found -> exists suf, s = found +:+ pat +:+ suf.
Proof.
  revert found. induction s as [| c s IH]; cbn [Chat.before_first]; intros found Hf.
  - destruct (String.prefix pat EmptyString) eqn:Hp; [| discriminate].
    injection Hf as <-. exists (Chat.skip (String.length pat) EmptyString).
    now apply prefix_split.
  - destruct (String.prefix pat (String c s)) eqn:Hp.
    + injection Hf as <-. exists (Chat.skip (String.length pat) (String c s)).
      now apply prefix_split.
    + destruct (Chat.before_first pat s) as [found' |]; [| discriminate].
      injection Hf as <-. destruct (IH found' eq_refl) as [suf ->].
      now exists suf.
Qed.

Lemma before_first_is_first (pat a rest found : string) :
  Chat.before_first pat (a +:+ pat +:+ rest) = Some found ->
  (String.length found <= String.length a)%nat.
Proof.
  revert found. induction a as [| c a IH]; intros found Hf.
  - change (EmptyString +:+ pat +:+ rest) with (pat +:+ rest) in Hf.
    destruct (pat +:+ rest) as [| x y] eqn:E; cbn [Chat.before_first] in Hf.
    + destruct (String.prefix pat EmptyString); [| discriminate].
      injection Hf as <-. simpl. lia.
    + rewrite <- E, prefix_of_app in Hf. injection Hf as <-. simpl. lia.
  - change (String c a +:+ pat +:+ rest) with (String c (a +:+ pat +:+ rest)) in Hf.
    cbn [Chat.before_first] in Hf.
    destruct (String.prefix pat (String c (a +:+ pat +:+ rest))).
    + injection Hf as <-. simpl. lia.
    + destruct (Chat.before_first pat (a +:+ pat +:+ rest)) as [found' |];
        [| discriminate].
      injection Hf as <-. specialize (IH found' eq_refl). simpl. lia.
Qed.

Lemma after_first_fence_open (pre rest : string) :
  Chat.has_backtick pre = false ->
  Chat.after_first Chat.fence_open (pre +:+ Chat.fence_open +:+ rest) = Some rest.
Proof.
  induction pre as [| c pre IH]; intros Hno.
  - change (EmptyString +:+ Chat.fence_open +:+ rest) with (Chat.fence_open +:+ rest).
    assert (Hp := prefix_of_app Chat.fence_open rest).
    destruct (Chat.fence_open +:+ rest) as [| x y] eqn:E; [discriminate |].
    cbn [Chat.after_first]. rewrite Hp. now rewrite <- E, skip_app.
  - simpl in Hno. apply orb_false_iff in Hno as [Hc Hrest].
    change (String c pre +:+ Chat.fence_open +:+ rest)
      with (String c (pre +:+ Chat.fence_open +:+ rest)).
    assert (Hp : String.prefix Chat.fence_open
                   (String c (pre +:+ Chat.fence_open +:+ rest)) = false).
    { exact (prefix_head_mismatch Chat.backtick c
               ("``scad" +:+ String Chat.LF EmptyString) _ (not_backtick c Hc)). }
    cbn [Chat.after_first]. rewrite Hp. now apply IH.
Qed.

Lemma before_first_fence_close (code suf : string) :
  Chat.has_backtick code = false ->
  Chat.before_first Chat.fence_close (code +:+ Chat.fence_close +:+ suf) = Some code.
Proof.
  induction code as [| c code IH]; intros Hno.
  - change (EmptyString +:+ Chat.fence_close +:+ suf) with (Chat.fence_close +:+ suf).
    assert (Hp := prefix_of_app Chat.fence_close suf).
    destruct (Chat.fence_close +:+ suf) as [| x y] eqn:E; [discriminate |].
    cbn [Chat.before_first]. now rewrite Hp.
  - simpl in Hno. apply orb_false_iff in Hno as [Hc Hrest].
    change (String c code +:+ Chat.fence_close +:+ suf)
      with (String c (code +:+ Chat.fence_close +:+ suf)).
    assert (Hp : String.prefix Chat.fence_close
                   (String c (code +:+ Chat.fence_close +:+ suf)) = false).
    { change Chat.fence_close with (String Chat.LF "```").
      destruct (ascii_dec Chat.LF c) as [<- | Hlf];
        [| now apply prefix_head_mismatch].
      rewrite prefix_head_match.
      destruct code as [| c' code].
      - now apply prefix_head_mismatch.
      - simpl in Hrest. apply orb_false_iff in Hrest as [Hc' _].
        exact (prefix_head_mismatch Chat.backtick c' "``" _ (not_backtick c' Hc')). }
    cbn [Chat.before_first]. rewrite Hp, (IH Hrest). reflexivity.
Qed.

(** X10: an answer that contains a scad block is read back exactly: for
    any text before the block and any code, both free of backticks, and
    any text after it, the code taken from
    text + "```scad" LF + code + LF "```" + rest is that code. *)
Theorem scad_block_is_read_back :
  forall (before code rest : string),
    Chat.has_backtick before = false ->
    Chat.has_backtick code = false ->
    Chat.scadCode_of (before +:+ Chat.fence_open +:+ code +:+ Chat.fence_close +:+ rest)
    = Some code.
Proof.
  intros before code rest Hb Hc. unfold Chat.scadCode_of.
  rewrite after_first_fence_open by assumption.
  now apply before_first_fence_close.
Qed.

Lemma scad_block_sample :
  Chat.scadCode_of
    ("Bracket, 50 x 40 mm" +:+ Chat.fence_open +:+ "cube([50,40,3]);"
     +:+ Chat.fence_close +:+ "Download as: bracket.scad")
  = Some "cube([50,40,3]);".
Proof.
  apply (scad_block_is_read_back "Bracket, 50 x 40 mm" "cube([50,40,3]);"
           "Download as: bracket.scad"); reflexivity.
Defined.

(** X11: whatever code is taken from an answer really stands in it between
    an opening "```scad" LF and a closing LF "```", and it ends at the
    first closing fence: the code itself contains none.  An answer without
    any backtick yields no code. *)
Theorem scad_code_comes_from_a_fenced_block :
  forall (responseText : string),
    (forall code,
       Chat.scadCode_of responseText = Some code ->
       (exists before rest,
          responseText
          = before +:+ Chat.fence_open +:+ code +:+ Chat.fence_close +:+ rest)
       /\ (forall a b, code <> a +:+ Chat.fence_close +:+ b))
    /\ (Chat.has_backtick responseText = false ->
        Chat.scadCode_of responseText = None).
Proof.
  intros text. split.
  - intros code Hc. unfold Chat.scadCode_of in Hc.
    destruct (Chat.after_first Chat.fence_open text) as [tail |] eqn:Ha;
      [| discriminate].
    destruct (after_first_found _ _ _ Ha) as [before ->].
    destruct (before_first_found _ _ _ Hc) as [rest Htail].
    split.
    + exists before, rest. now rewrite Htail.
    + intros a b ->.
      rewrite Htail in Hc. rewrite !string_app_assoc in Hc.
      apply before_first_is_first in Hc.
      rewrite !string_length_app in Hc. simpl in Hc. lia.
  - intros Hno. unfold Chat.scadCode_of.
    assert (Hnone : Chat.after_first Chat.fence_open text = None).
    { induction text as [| c text IH]; [reflexivity |].
      simpl in Hno. apply orb_false_iff in Hno as [Hc Hrest].
      assert (Hp : String.prefix Chat.fence_open (String c text) = false).
      { exact (prefix_head_mismatch Chat.backtick c
                 ("``scad" +:+ String Chat.LF EmptyString) _ (not_backtick c Hc)). }
      cbn [Chat.after_first]. rewrite Hp. now apply IH. }
    now rewrite Hnone.
Qed.

Lemma scad_code_sample :
  Chat.scadCode_of "Which diameter should the bore have?" = None.
Proof.
  destruct (scad_code_comes_from_a_fenced_block
              "Which diameter should the bore have?") as [_ Hnone].
  apply Hnone. reflexivity.
Defined.

(** * Sessions *)

Import Sessions.

Lemma contains_slash_app (a b : string) :
  contains_slash (a +:+ b) = contains_slash a || contains_slash b.
Proof.
  induction a as [| c a IH]; [reflexivity |].
  change (String c a +:+ b) with (String c (a +:+ b)). simpl.
  now rewrite IH, orb_assoc.
Qed.

Lemma string_app_inj_r (a b s : string) : a +:+ s = b +:+ s -> a = b.
Proof.
  revert b. induction a as [| x a IH]; intros [| y b] E.
  - reflexivity.
  - apply (f_equal String.length) in E. rewrite !string_length_app in E.
    simpl in E. lia.
  - apply (f_equal String.length) in E. rewrite !string_length_app in E.
    simpl in E. lia.
  - change (String x (a +:+ s) = String y (b +:+ s)) in E.
    injection E as -> E. now rewrite (IH b E).
Qed.

Lemma join_long_segment (p : path) (seg : string) :
  (3 <= String.length seg)%nat -> join_segment p seg = (p ++ [seg])%list.
Proof.
  intros Hlen. unfold join_segment.
  destruct (String.eqb_spec seg EmptyString) as [-> | _]; [simpl in Hlen; lia |].
  destruct (String.eqb_spec seg ".") as [-> | _]; [simpl in Hlen; lia |].
  destruct (String.eqb_spec seg "..") as [-> | _]; [simpl in Hlen; lia |].
  reflexivity.
Qed.

Lemma endsWith_json_long (f : string) :
  endsWith f ".json" = true -> (3 <= String.length f)%nat.
Proof.
  unfold endsWith. simpl String.length.
  destruct (5 <=? String.length f)%nat eqn:E; [| discriminate].
  intros _. apply Nat.leb_le in E. lia.
Qed.

Lemma getSessionPath_inside (dir : path) (id : string) :
  contains_slash id = false ->
  getSessionPath dir id = (dir ++ [id +:+ ".json"])%list.
Proof.
  intros Hno. unfold getSessionPath.
  rewrite split_without_slash by (now rewrite contains_slash_app, Hno).
  unfold path_join. cbn [fold_left]. apply join_long_segment.
  rewrite string_length_app. simpl. lia.
Qed.

Lemma getSessionPath_distinct (dir : path) (id id' : string) :
  contains_slash id = false -> contains_slash id' = false ->
  id <> id' -> getSessionPath dir id <> getSessionPath dir id'.
Proof.
  intros Hno Hno' Hne E. rewrite !getSessionPath_inside in E by assumption.
  apply app_inj_tail in E as [_ E]. now apply string_app_inj_r in E.
Qed.

Lemma pretty_N_char_not_slash (d : N) : Ascii.eqb (pretty_N_char d) slash = false.
Proof.
  destruct d as [| p]; [reflexivity |].
  repeat (destruct p as [p | p |]; try reflexivity).
Qed.

Lemma pretty_N_go_slash (x : N) : forall s,
  contains_slash (pretty_N_go x s) = contains_slash s.
Proof.
  induction (N.lt_wf_0 x) as [x _ IH]. intros s.
  destruct (N.eq_dec x 0%N) as [-> | Hx]; [now rewrite pretty_N_go_0 |].
  rewrite pretty_N_go_step by lia.
  rewrite IH by (apply N.div_lt; lia).
  simpl. now rewrite pretty_N_char_not_slash.
Qed.

Lemma pretty_Z_without_slash (z : Z) : contains_slash (pretty z) = false.
Proof.
  assert (HN : forall n : N, contains_slash (pretty n) = false).
  { intros n. unfold pretty, pretty_N. destruct (decide (n = 0%N)); [reflexivity |].
    now rewrite pretty_N_go_slash. }
  destruct z as [| p | p]; [reflexivity | apply (HN (N.pos p)) |].
  change (pretty (Z.neg p)) with ("-" +:+ pretty (N.pos p)).
  rewrite contains_slash_app, (HN (N.pos p)). reflexivity.
Qed.

Lemma generateSessionId_without_slash (now : Z) (random36 : string) :
  contains_slash random36 = false ->
  contains_slash (generateSessionId now random36) = false.
Proof.
  intros Hr. unfold generateSessionId.
  rewrite !contains_slash_app, pretty_Z_without_slash, Hr. reflexivity.
Qed.



Example session_path_with_slashes :
  getSessionPath ["srv"; "cad"; "server"; "sessions"] "../../package"
  = ["srv"; "cad"; "package.json"].
Proof. reflexivity. Qed.

Lemma write_then_read (st : gmap path node) (dir : path) (name : string) (s : session) :
  st !! dir = Some Folder ->
  st !! (dir ++ [name])%list <> Some Folder ->
  fs_writeJSON st (dir ++ [name])%list s
  = Normal (<[(dir ++ [name])%list := SessionFile s]> st).
Proof.
  intros Hdir Hfile. unfold fs_writeJSON. rewrite removelast_last, Hdir.
  destruct (st !! (dir ++ [name])%list) as [[| |] |]; try reflexivity.
  now destruct Hfile.
Qed.

Lemma getSession_written (st : gmap path node) (dir : path) (id : string) (s : session) :
  getSession dir id (<[getSessionPath dir id := SessionFile s]> st) = Normal (Some s).
Proof.
  unfold getSession, fs_exists, fs_readJSON. now rewrite lookup_insert_eq.
Qed.

Lemma getSession_elsewhere (st : gmap path node) (dir p : path) (id : string) (n : node) :
  p <> getSessionPath dir id ->
  getSession dir id (<[p := n]> st) = getSession dir id st.
Proof.
  intros Hne. unfold getSession, fs_exists, fs_readJSON.
  now rewrite lookup_insert_ne.
Qed.

(** X13: in an existing sessions directory, creating a session writes a
    file from which the very same session is read back: it has the
    generated id, the two timestamps read from the clock and no messages;
    the create endpoint reports its id and creation time and the get
    endpoint then returns it.  Sessions stored under other ids are read as
    before. *)
Theorem created_session_is_read_back :
  forall (SESSIONS_DIR : path) (r : readings) (st : gmap path node),
    let id := generateSessionId (now_ms r) (random36 r) in
    contains_slash (random36 r) = false ->
    st !! SESSIONS_DIR = Some Folder ->
    st !! getSessionPath SESSIONS_DIR id <> Some Folder ->
    exists s st',
      createSession SESSIONS_DIR r st = Normal (s, st')
      /\ s = {| sess_id := id; createdAt := created_iso r;
                updatedAt := updated_iso r; messages := [] |}
      /\ getSession SESSIONS_DIR id st' = Normal (Some s)
      /\ post_session_create SESSIONS_DIR r st = (Created id (created_iso r), st')
      /\ get_session SESSIONS_DIR id st' = Found s
      /\ (forall id', contains_slash id' = false -> id' <> id ->
            getSession SESSIONS_DIR id' st' = getSession SESSIONS_DIR id' st).
Proof.
  intros dir r st id Hr Hdir Hfile.
  assert (Hid : contains_slash id = false)
    by (now apply generateSessionId_without_slash).
  pose proof (getSessionPath_inside dir id Hid) as Hp.
  set (s := {| sess_id := id; createdAt := created_iso r;
               updatedAt := updated_iso r; messages := [] |}).
  exists s, (<[getSessionPath dir id := SessionFile s]> st).
  assert (Hc : createSession dir r st
               = Normal (s, <[getSessionPath dir id := SessionFile s]> st)).
  { unfold createSession. fold id. fold s. rewrite Hp in *.
    now rewrite write_then_read. }
  split; [exact Hc |]. split; [reflexivity |].
  split; [apply getSession_written |].
  split; [unfold post_session_create; now rewrite Hc |].
  split; [unfold get_session; now rewrite getSession_written |].
  intros id' Hid' Hne. apply getSession_elsewhere.
  apply not_eq_sym. now apply getSessionPath_distinct.
Qed.

Lemma created_session_sample :
  exists s st',
    createSession ["data"; "sessions"]
      {| now_ms := 1770313733740; random36 := "k3x9q2m1z";
         created_iso := "2026-02-05T17:48:53.740Z";
         updated_iso := "2026-02-05T17:48:53.741Z" |}
      {[ ["data"; "sessions"] := Folder ]}
    = Normal (s, st')
    /\ getSession ["data"; "sessions"] "sess_1770313733740_k3x9q2m1z" st'
       = Normal (Some s).
Proof.
  destruct (created_session_is_read_back ["data"; "sessions"]
              {| now_ms := 1770313733740; random36 := "k3x9q2m1z";
                 created_iso := "2026-02-05T17:48:53.740Z";
                 updated_iso := "2026-02-05T17:48:53.741Z" |}
              {[ ["data"; "sessions"] := Folder ]})
    as (s & st' & Hc & _ & Hg & _).
  - reflexivity.
  - vm_compute. reflexivity.
  - vm_compute. discriminate.
  - exists s, st'. split; [exact Hc | exact Hg].
Defined.

(** X14: saving a session stamps it with the time of saving and leaves
    its id, creation time and messages alone; what is then read under its
    id is exactly the stamped session, whatever was stored there before. *)
Theorem saved_session_is_read_back_with_the_new_stamp :
  forall (SESSIONS_DIR : path) (now_iso : string) (s : session) (st : gmap path node),
    contains_slash (sess_id s) = false ->
    st !! SESSIONS_DIR = Some Folder ->
    st !! getSessionPath SESSIONS_DIR (sess_id s) <> Some Folder ->
    exists st',
      saveSession SESSIONS_DIR now_iso s st
      = Normal ({| sess_id := sess_id s; createdAt := createdAt s;
                   updatedAt := now_iso; messages := messages s |}, st')
      /\ getSession SESSIONS_DIR (sess_id s) st'
         = Normal (Some {| sess_id := sess_id s; createdAt := createdAt s;
                           updatedAt := now_iso; messages := messages s |})
      /\ (forall id', contains_slash id' = false -> id' <> sess_id s ->
            getSession SESSIONS_DIR id' st' = getSession SESSIONS_DIR id' st).
Proof.
  intros dir now_iso s st Hid Hdir Hfile.
  pose proof (getSessionPath_inside dir (sess_id s) Hid) as Hp.
  eexists. split; [| split].
  - unfold saveSession. cbn [sess_id]. rewrite Hp in *.
    rewrite write_then_read by assumption. reflexivity.
  - rewrite <- Hp. apply getSession_written.
  - intros id' Hid' Hne. rewrite <- Hp. apply getSession_elsewhere.
    apply not_eq_sym. now apply getSessionPath_distinct.
Qed.

Lemma saved_session_sample :
  exists st',
    saveSession ["data"; "sessions"] "2026-02-05T18:00:00.000Z"
      {| sess_id := "sess_1_a"; createdAt := "2026-02-05T17:00:00.000Z";
         updatedAt := "2026-02-05T17:00:00.000Z";
         messages := [ {| role := "user"; content := "a gear"; scadCode := None;
                          fileName := None |} ] |}
      {[ ["data"; "sessions"] := Folder ]}
    = Normal ({| sess_id := "sess_1_a"; createdAt := "2026-02-05T17:00:00.000Z";
                 updatedAt := "2026-02-05T18:00:00.000Z";
                 messages := [ {| role := "user"; content := "a gear";
                                  scadCode := None; fileName := None |} ] |}, st').
Proof.
  destruct (saved_session_is_read_back_with_the_new_stamp ["data"; "sessions"]
              "2026-02-05T18:00:00.000Z"
              {| sess_id := "sess_1_a"; createdAt := "2026-02-05T17:00:00.000Z";
                 updatedAt := "2026-02-05T17:00:00.000Z";
                 messages := [ {| role := "user"; content := "a gear";
                                  scadCode := None; fileName := None |} ] |}
              {[ ["data"; "sessions"] := Folder ]})
    as (st' & Hs & _).
  - reflexivity.
  - vm_compute. reflexivity.
  - vm_compute. discriminate.
  - exists st'. exact Hs.
Defined.

(** X15: deleting a stored session answers with success and removes just
    its file: the session is 'not found' afterwards, by the get endpoint
    and by a second delete, which changes nothing; every other path keeps
    what it had.  Deleting an id that has no file answers 404 and changes
    nothing. *)
Theorem deleted_session_is_gone :
  forall (SESSIONS_DIR : path) (id : string) (st : gmap path node),
    (forall s, st !! getSessionPath SESSIONS_DIR id = Some (SessionFile s) ->
       exists st',
         delete_session SESSIONS_DIR id st = (Success, st')
         /\ get_session SESSIONS_DIR id st' = Failure 404 "Session not found"
         /\ delete_session SESSIONS_DIR id st' = (Failure 404 "Session not found", st')
         /\ (forall p, p <> getSessionPath SESSIONS_DIR id -> st' !! p = st !! p))
    /\ (st !! getSessionPath SESSIONS_DIR id = None ->
          delete_session SESSIONS_DIR id st = (Failure 404 "Session not found", st)
          /\ get_session SESSIONS_DIR id st = Failure 404 "Session not found").
Proof.
  intros dir id st. split.
  - intros s Hs. exists (delete (getSessionPath dir id) st).
    unfold delete_session, get_session, getSession, fs_exists, fs_unlink.
    rewrite Hs, lookup_delete_eq. repeat split.
    intros p Hne. now apply lookup_delete_ne.
  - intros Hnone.
    unfold delete_session, get_session, getSession, fs_exists.
    rewrite Hnone. split; reflexivity.
Qed.

Lemma deleted_session_sample :
  exists st',
    delete_session ["data"; "sessions"] "sess_1_a"
      {[ ["data"; "sessions"] := Folder;
         ["data"; "sessions"; "sess_1_a.json"]
           := SessionFile {| sess_id := "sess_1_a"; createdAt := "t0";
                             updatedAt := "t1"; messages := [] |} ]}
    = (Success, st')
    /\ get_session ["data"; "sessions"] "sess_1_a" st'
       = Failure 404 "Session not found".
Proof.
  destruct (deleted_session_is_gone ["data"; "sessions"] "sess_1_a"
              {[ ["data"; "sessions"] := Folder;
                 ["data"; "sessions"; "sess_1_a.json"]
                   := SessionFile {| sess_id := "sess_1_a"; createdAt := "t0";
                                     updatedAt := "t1"; messages := [] |} ]})
    as [Hstored _].
  destruct (Hstored {| sess_id := "sess_1_a"; createdAt := "t0";
                       updatedAt := "t1"; messages := [] |})
    as (st' & Hd & Hg & _).
  - vm_compute. reflexivity.
  - exists st'. split; [exact Hd | exact Hg].
Defined.

(** X16: without the sessions directory, creating a session fails: the
    endpoint answers 500 'Failed to create session' and nothing is
    written; the list endpoint answers with an empty list, and every
    session is 'not found'. *)
Theorem missing_sessions_directory :
  forall (SESSIONS_DIR : path) (r : readings) (st : gmap path node)
         (Date_ms : string -> Z),
    contains_slash (random36 r) = false ->
    st !! SESSIONS_DIR = None ->
    post_session_create SESSIONS_DIR r st = (Failure 500 "Failed to create session", st)
    /\ get_sessions Date_ms SESSIONS_DIR st = Listing []
    /\ (forall id, contains_slash id = false ->
          st !! getSessionPath SESSIONS_DIR id = None ->
          get_session SESSIONS_DIR id st = Failure 404 "Session not found").
Proof.
  intros dir r st Date_ms Hr Hdir. split; [| split].
  - unfold post_session_create, createSession, fs_writeJSON.
    rewrite getSessionPath_inside by (now apply generateSessionId_without_slash).
    now rewrite removelast_last, Hdir.
  - unfold get_sessions, listSessions, fs_exists. now rewrite Hdir.
  - intros id Hid Hnone. unfold get_session, getSession, fs_exists.
    now rewrite Hnone.
Qed.

Lemma missing_sessions_directory_sample :
  post_session_create ["data"; "sessions"]
    {| now_ms := 5; random36 := "abc"; created_iso := "t0"; updated_iso := "t0" |} ∅
  = (Failure 500 "Failed to create session", ∅).
Proof.
  destruct (missing_sessions_directory ["data"; "sessions"]
              {| now_ms := 5; random36 := "abc"; created_iso := "t0";
                 updated_iso := "t0" |} ∅ (fun _ => 0)) as (Hc & _).
  - reflexivity.
  - reflexivity.
  - exact Hc.
Defined.

Lemma child_name_spec (dir p : path) (f : string) :
  child_name dir p = Some f <-> p = (dir ++ [f])%list.
Proof.
  unfold child_name. split.
  - destruct (last p) as [name |] eqn:Hl; [| discriminate].
    apply last_Some in Hl as [l' ->]. rewrite removelast_last.
    destruct (bool_decide (l' = dir)) eqn:Hd; [| discriminate].
    apply bool_decide_eq_true in Hd as ->. now intros [= ->].
  - intros ->. rewrite last_snoc, removelast_last.
    now rewrite bool_decide_eq_true_2.
Qed.

Lemma readdir_lists_the_children (st : gmap path node) (dir : path) (names : list string) :
  fs_readdir st dir = Normal names ->
  forall f, f ∈ names <-> is_Some (st !! (dir ++ [f])%list).
Proof.
  unfold fs_readdir. destruct (st !! dir) as [[| |] |]; try discriminate.
  intros [= <-] f. rewrite list_elem_of_omap. split.
  - intros ([p n] & Hin & Hc). apply child_name_spec in Hc. simpl in Hc. subst p.
    apply elem_of_map_to_list in Hin. now exists n.
  - intros [n Hn]. exists ((dir ++ [f])%list, n). split.
    + now apply elem_of_map_to_list.
    + now apply child_name_spec.
Qed.

Lemma read_all_of_sessions (st : gmap path node) (dir : path) (files : list string) :
  (forall f, f ∈ files ->
     exists s, st !! path_join dir [f] = Some (SessionFile s)) ->
  exists l,
    read_all st dir files = Normal l
    /\ forall x, x ∈ l <->
         exists f s, f ∈ files
                     /\ st !! path_join dir [f] = Some (SessionFile s)
                     /\ x = summarise s.
Proof.
  induction files as [| f files IH]; intros Hall.
  - exists []. split; [reflexivity |]. intros x. split.
    + intros Hx. now apply elem_of_nil in Hx.
    + intros (f & s & Hf & _). now apply elem_of_nil in Hf.
  - destruct (Hall f (list_elem_of_here _ _)) as [s Hs].
    destruct IH as (l & Hl & Hmem).
    { intros g Hg. apply Hall. now apply list_elem_of_further. }
    exists (summarise s :: l). split.
    + cbn [read_all]. unfold fs_readJSON at 1. now rewrite Hs, Hl.
    + intros x. rewrite elem_of_cons, Hmem. split.
      * intros [-> | (g & t & Hg & Ht & ->)].
        -- exists f, s. repeat split; [apply list_elem_of_here | exact Hs].
        -- exists g, t. repeat split; [now apply list_elem_of_further | exact Ht].
      * intros (g & t & Hg & Ht & ->). apply elem_of_cons in Hg as [-> | Hg].
        -- left. rewrite Hs in Ht. now injection Ht as ->.
        -- right. now exists g, t.
Qed.

Lemma read_all_stops_at_a_bad_file (st : gmap path node) (dir : path)
    (files : list string) (f : string) :
  f ∈ files ->
  (forall s, st !! path_join dir [f] <> Some (SessionFile s)) ->
  exists e, read_all st dir files = Throw e.
Proof.
  induction files as [| g files IH]; intros Hin Hbad.
  - now apply elem_of_nil in Hin.
  - cbn [read_all]. destruct (fs_readJSON st (path_join dir [g])) as [data | e] eqn:Hr;
      [| now exists e].
    apply elem_of_cons in Hin as [-> | Hin].
    + unfold fs_readJSON in Hr.
      destruct (st !! path_join dir [g]) as [[s | why |] |] eqn:Hg; try discriminate.
      now destruct (Hbad s).
    + destruct (IH Hin Hbad) as [e ->]. now exists e.
Qed.

Section Newest.

Variable Date_ms : string -> Z.





End Newest.







(** X18: one ".json" entry in the sessions directory that cannot be read
    as JSON (a file whose text [JSON.parse] rejects, or a directory of
    that name) makes the whole list endpoint answer 500
    'Failed to list sessions', whatever else is stored; the get endpoint
    answers 500 'Failed to retrieve session' for the id of that entry. *)
Theorem one_bad_session_file_fails_the_whole_list :
  forall (Date_ms : string -> Z) (SESSIONS_DIR : path) (st : gmap path node)
         (id : string) (n : node),
    contains_slash id = false ->
    st !! SESSIONS_DIR = Some Folder ->
    st !! (SESSIONS_DIR ++ [id +:+ ".json"])%list = Some n ->
    n = Folder \/ (exists why, n = OtherFile why) ->
    get_sessions Date_ms SESSIONS_DIR st = Failure 500 "Failed to list sessions"
    /\ get_session SESSIONS_DIR id st = Failure 500 "Failed to retrieve session".
Proof.
  intros Date_ms dir st id n Hid Hdir Hn Hunreadable.
  assert (Hbad : forall s, n <> SessionFile s).
  { intros s. destruct Hunreadable as [-> | [why ->]]; discriminate. }
  assert (Hj : endsWith (id +:+ ".json") ".json" = true).
  { unfold endsWith. rewrite string_length_app. simpl String.length.
    replace (5 <=? String.length id + 5)%nat with true
      by (symmetry; apply Nat.leb_le; lia).
    replace (String.length id + 5 - 5)%nat with (String.length id) by lia.
    apply String.eqb_eq. clear. induction id as [| c id IH]; [reflexivity |].
    exact IH. }
  split.
  - destruct (fs_readdir st dir) as [names | e] eqn:Hr;
      [| unfold fs_readdir in Hr; rewrite Hdir in Hr; discriminate].
    pose proof (readdir_lists_the_children st dir names Hr (id +:+ ".json")) as Hin.
    destruct (read_all_stops_at_a_bad_file st dir
                (List.filter (fun f => endsWith f ".json") names) (id +:+ ".json"))
      as [e He].
    + apply list_elem_of_In, filter_In. split; [| exact Hj].
      apply list_elem_of_In, Hin. now exists n.
    + intros s. unfold path_join. cbn [fold_left].
      rewrite join_long_segment by (now apply endsWith_json_long).
      rewrite Hn. intros [= ->]. now destruct (Hbad s).
    + unfold get_sessions, listSessions, fs_exists. now rewrite Hdir, Hr, He.
  - unfold get_session, getSession, fs_exists, fs_readJSON.
    rewrite getSessionPath_inside by assumption. rewrite Hn.
    destruct n as [s | why |]; try reflexivity. now destruct (Hbad s).
Qed.

Lemma one_bad_session_file_sample :
  get_sessions (fun t => Z.of_nat (String.length t)) ["data"]
    {[ ["data"] := Folder;
       ["data"; "a.json"] := SessionFile {| sess_id := "a"; createdAt := "1";
                                            updatedAt := "22"; messages := [] |};
       ["data"; "b.json"] := OtherFile (Error "Unexpected end of JSON input") ]}
  = Failure 500 "Failed to list sessions".
Proof.
  destruct (one_bad_session_file_fails_the_whole_list (fun t => Z.of_nat (String.length t)) ["data"]
    {[ ["data"] := Folder;
       ["data"; "a.json"] := SessionFile {| sess_id := "a"; createdAt := "1";
                                            updatedAt := "22"; messages := [] |};
       ["data"; "b.json"] := OtherFile (Error "Unexpected end of JSON input") ]}
    "b" (OtherFile (Error "Unexpected end of JSON input"))) as [Hlist _].
  - reflexivity.
  - vm_compute. reflexivity.
  - vm_compute. reflexivity.
  - right. now exists (Error "Unexpected end of JSON input").
  - exact Hlist.
Defined.

(** * The reply built from a rendered file *)

(** X19: [sendResponse] answers with the base64 text of the rendered
    file and the script that was sent in, and then both temporary files
    are gone while every other path keeps what it had.  If the rendered
    file cannot be read, the answer is 500 'Failed to read generated
    model', the read error is logged and nothing is removed: the script
    file stays behind. *)
Theorem rendered_file_is_sent_and_temporary_files_removed :
  forall (fs : gmap path fs_entry) (stlPath scadPath : path) (scadCode : json),
    (forall stl scad,
       fs !! stlPath = Some (File stl) ->
       fs !! scadPath = Some (File scad) ->
       scadPath <> stlPath ->
       exists fs',
         Rendered.sendResponse fs stlPath scadPath scadCode
         = ({| status_code := 200;
               sent := [("stlData", JString (base64 stl)); ("scadCode", scadCode)] |},
            fs', [])
         /\ fs' !! stlPath = None /\ fs' !! scadPath = None
         /\ (forall p, p <> stlPath -> p <> scadPath -> fs' !! p = fs !! p))
    /\ ((forall stl, fs !! stlPath <> Some (File stl)) ->
          exists readError,
            Rendered.sendResponse fs stlPath scadPath scadCode
            = ({| status_code := 500;
                  sent := [("error", JString "Failed to read generated model")] |},
               fs, [readError])).
Proof.
  intros fs stlPath scadPath scadCode. split.
  - intros stl scad Hstl Hscad Hne.
    exists (delete stlPath (delete scadPath fs)).
    unfold Rendered.sendResponse, readFileSync. rewrite Hstl.
    unfold Rendered.clean_up, Rendered.unlink_if_exists, Rendered.unlinkSync, existsSync.
    rewrite Hscad. rewrite (lookup_delete_ne fs scadPath stlPath Hne), Hstl.
    rewrite Buffer_bytes_from. repeat split.
    + apply lookup_delete_eq.
    + rewrite lookup_delete_ne by congruence. apply lookup_delete_eq.
    + intros p H1 H2. rewrite !lookup_delete_ne by congruence. reflexivity.
  - intros Hbad. unfold Rendered.sendResponse, readFileSync.
    destruct (fs !! stlPath) as [[stl | | e] |] eqn:E; eauto.
    now destruct (Hbad stl).
Qed.

Lemma rendered_file_sample :
  exists fs',
    Rendered.sendResponse
      {[ ["tmp"; "model_1770313733740.scad"] := File [x63];
         ["tmp"; "model_1770313733740.stl"] := File [x73; x6f; x6c] ]}
      ["tmp"; "model_1770313733740.stl"] ["tmp"; "model_1770313733740.scad"]
      Sample.cube
    = ({| status_code := 200;
          sent := [("stlData", JString "c29s"); ("scadCode", Sample.cube)] |},
       fs', [])
    /\ fs' !! ["tmp"; "model_1770313733740.scad"] = None.
Proof.
  destruct (rendered_file_is_sent_and_temporary_files_removed
      {[ ["tmp"; "model_1770313733740.scad"] := File [x63];
         ["tmp"; "model_1770313733740.stl"] := File [x73; x6f; x6c] ]}
      ["tmp"; "model_1770313733740.stl"] ["tmp"; "model_1770313733740.scad"]
      Sample.cube) as [Hok _].
  destruct (Hok [x73; x6f; x6c] [x63]) as (fs' & Hs & _ & Hscad & _).
  - vm_compute. reflexivity.
  - vm_compute. reflexivity.
  - discriminate.
  - exists fs'. split; [exact Hs | exact Hscad].
Defined.
